(** * Provider console: configuration engine and instrument browser

    A shallow embedding of [web/client/src/app/providers/page.tsx]: the
    schema-driven configuration helpers ([valueToString],
    [buildConfigValues], [parseConfigValue], [collectConfigPayload],
    [handleFormSubmit]) and the filtered, paginated instrument view with
    its selection (the [useMemo] and [useEffect] blocks of
    [ProvidersPage] and the values derived on each render).

    Modelling conventions.
    - A JavaScript string is a [string]; each character is read as a code
      unit below 256 (the Latin-1 range), so [trim] and [toLowerCase] are
      exact on that range.
    - A [Record<string, T>] is a [gmap string T]: own properties with
      ordinary names.
    - Array lengths and the page index are [nat]: the page state starts at
      0 and every setter in the component keeps it a natural number.
    - A JavaScript Number is kept as the exact decimal it was read from;
      the rounding to binary64 is not part of the embedding.
    - A handler or an effect is the list of setter calls it makes; the
      calls queued during one pass are applied in order before the next
      render, and an effect runs after a render when one of its
      dependencies differs from the render before. *)

From Stdlib Require Import ZArith NArith Ascii String List Bool Lia.
From stdpp Require Import base option list strings pretty gmap fin_maps.

Local Open Scope string_scope.
Local Open Scope nat_scope.

(** ** JavaScript strings *)

Module JsString.

Definition code (c : ascii) : nat := nat_of_ascii c.

(** WhiteSpace and LineTerminator code points below 256: TAB, LF, VT,
    FF, CR, SP and NBSP. *)
Definition isWhiteSpace (c : ascii) : bool :=
  let n := code c in
  ((9 <=? n) && (n <=? 13)) || (n =? 32) || (n =? 160).

Definition isDigit (c : ascii) : bool :=
  let n := code c in (48 <=? n) && (n <=? 57).

Definition digitValue (c : ascii) : N := N.of_nat (code c - 48).

Definition isEmpty (s : string) : bool :=
  match s with "" => true | String _ _ => false end.

Fixpoint trimStart (s : string) : string :=
  match s with
  | "" => ""
  | String c t => if isWhiteSpace c then trimStart t else s
  end.

Fixpoint trimEnd (s : string) : string :=
  match s with
  | "" => ""
  | String c t =>
      let t' := trimEnd t in
      if isWhiteSpace c && isEmpty t' then "" else String c t'
  end.

(** [String.prototype.trim] *)
Definition trim (s : string) : string := trimEnd (trimStart s).

(** Upper-case letters of the range: A-Z, and U+00C0-U+00DE except the
    multiplication sign U+00D7; each has its lower-case form 32 above. *)
Definition isUpper (c : ascii) : bool :=
  let n := code c in
  ((65 <=? n) && (n <=? 90))
  || ((192 <=? n) && (n <=? 222) && negb (n =? 215)).

Definition lowerChar (c : ascii) : ascii :=
  if isUpper c then ascii_of_nat (code c + 32) else c.

(** [String.prototype.toLowerCase] *)
Fixpoint toLowerCase (s : string) : string :=
  match s with
  | "" => ""
  | String c t => String (lowerChar c) (toLowerCase t)
  end.

(** [String.prototype.startsWith] *)
Fixpoint startsWith (s p : string) {struct p} : bool :=
  match p, s with
  | "", _ => true
  | String _ _, "" => false
  | String a p', String b s' => Ascii.eqb a b && startsWith s' p'
  end.

(** [String.prototype.includes] *)
Fixpoint includes (s q : string) : bool :=
  startsWith s q ||
  match s with
  | "" => false
  | String _ t => includes t q
  end.

(** Splits off the longest leading run of decimal digits. *)
Fixpoint spanDigits (s : string) : string * string :=
  match s with
  | "" => ("", "")
  | String c t =>
      if isDigit c
      then let '(d, r) := spanDigits t in (String c d, r)
      else ("", s)
  end.

(** Value of a digit string in radix 10, most significant digit first. *)
Fixpoint digitsValueFrom (acc : N) (s : string) : N :=
  match s with
  | "" => acc
  | String c t => digitsValueFrom (10 * acc + digitValue c)%N t
  end.

Definition digitsValue (s : string) : N := digitsValueFrom 0 s.

(** An optional leading sign: [true] for a minus. *)
Definition splitSign (s : string) : bool * string :=
  match s with
  | String c t =>
      if Ascii.eqb c "-" then (true, t)
      else if Ascii.eqb c "+" then (false, t)
      else (false, s)
  | "" => (false, s)
  end.

End JsString.

(** ** JavaScript numbers and values *)

(** A Number as the code obtains it: [NaN], an infinity, or the decimal
    [(-1)^neg * mant * 10^exp10]. A negative zero is [Dec true 0 _]. *)
Inductive JSNumber : Type :=
| NaN
| Inf (neg : bool)
| Dec (neg : bool) (mant : N) (exp10 : Z).

(** The Number of an integer. *)
Definition intNumber (z : Z) : JSNumber := Dec (z <? 0)%Z (Z.abs_N z) 0.

Definition Number_isNaN (n : JSNumber) : bool :=
  match n with NaN => true | _ => false end.

(** [Number.parseInt(s, 10)]: leading white space is skipped, then an
    optional sign, then the longest run of decimal digits; no digit gives
    [NaN]. *)
Definition parseInt10 (s : string) : JSNumber :=
  let '(neg, body) := JsString.splitSign (JsString.trimStart s) in
  let '(digits, _) := JsString.spanDigits body in
  if JsString.isEmpty digits then NaN
  else Dec neg (JsString.digitsValue digits) 0.

(** The exponent part of a decimal literal, [e] or [E], an optional sign
    and at least one digit; 0 when the text does not start with one. *)
Definition exponentPart (s : string) : Z :=
  match s with
  | String c t =>
      if Ascii.eqb c "e" || Ascii.eqb c "E" then
        let '(neg, body) := JsString.splitSign t in
        let '(digits, _) := JsString.spanDigits body in
        if JsString.isEmpty digits then 0%Z
        else
          let v := Z.of_N (JsString.digitsValue digits) in
          if neg then (- v)%Z else v
      else 0%Z
  | "" => 0%Z
  end.

(** [Number.parseFloat(s)]: the longest prefix that is a decimal literal
    (sign, [Infinity], or digits with an optional fraction and exponent). *)
Definition parseFloat (s : string) : JSNumber :=
  let '(neg, body) := JsString.splitSign (JsString.trimStart s) in
  if JsString.startsWith body "Infinity" then Inf neg
  else
    let '(ip, r1) := JsString.spanDigits body in
    let '(fp, r2) :=
      match r1 with
      | String "." t => JsString.spanDigits t
      | _ => ("", r1)
      end in
    if JsString.isEmpty ip && JsString.isEmpty fp then NaN
    else Dec neg (JsString.digitsValue (ip ++ fp))
             (exponentPart r2 - Z.of_nat (String.length fp)).

(** A value of type [unknown]. *)
#[warnings="-register-all"]
Inductive JSValue : Type :=
| VUndefined
| VNull
| VBoolean (b : bool)
| VNumber (n : JSNumber)
| VString (s : string)
| VArray (items : list JSValue)
| VObject (fields : list (string * JSValue)).

(** [value === null || value === undefined] *)
Definition isNullish (v : JSValue) : bool :=
  match v with VUndefined | VNull => true | _ => false end.

(** [typeof value === 'object'], for a value that is not [null]. *)
Definition isObject (v : JSValue) : bool :=
  match v with VArray _ | VObject _ => true | _ => false end.

(** Truthiness of a string: every string but the empty one. *)
Definition truthy (s : string) : bool := negb (JsString.isEmpty s).

(** [Array.prototype.includes] on an array of strings; also the grouped
    [case] labels of a [switch]. *)
Definition Array_includes (items : list string) (x : string) : bool :=
  existsb (String.eqb x) items.

(** ** Data model *)

(** Modelled from the spec: the declarations of [@/lib/types]
    ([SettingsSchema], [AdapterMetadata], [Instrument], [ProviderDetail],
    [ProviderRequest]) are not part of the sources; the records below
    carry the fields the page reads, with the types of section 3 and 6 of
    the specification. An absent [default] is [VUndefined]. *)
Record SettingsSchema : Type := {
  setting_name : string;
  setting_type : string;
  setting_default : JSValue;
  setting_required : bool
}.

Record AdapterMetadata : Type := {
  adapter_identifier : string;
  adapter_displayName : string;
  adapter_settingsSchema : list SettingsSchema
}.

Record Instrument : Type := {
  symbol : string;
  instrument_type : option string;
  baseAsset : option string;
  base_currency : option string;
  quoteAsset : option string;
  quote_currency : option string
}.

Record ProviderDetail : Type := {
  detail_name : string;
  detail_adapter : AdapterMetadata;
  detail_settings : gmap string JSValue;
  detail_running : bool;
  detail_instruments : list Instrument
}.

Record ProviderRequest : Type := {
  request_name : string;
  request_adapter_identifier : string;
  request_adapter_config : gmap string JSValue;
  request_enabled : bool
}.

Inductive FormMode : Type := Create | Edit.

Record FormState : Type := {
  form_name : string;
  form_adapter : string;
  form_configValues : gmap string string;
  form_enabled : bool
}.

Definition defaultFormState : FormState :=
  {| form_name := ""; form_adapter := ""; form_configValues := ∅;
     form_enabled := true |}.

(** ** Building the editable values *)

(** The two conversions of the language that the embedding leaves
    open: [JSON.stringify] on an object or array, and the text of a
    Number. *)
Class Builtins : Type := {
  JSON_stringify : JSValue -> string;
  Number_toString : JSNumber -> string
}.

Section Conversions.

Context {builtins : Builtins}.

(** [String(value)] on a primitive that is neither [null] nor
    [undefined]. *)
Definition String_of (value : JSValue) : string :=
  match value with
  | VBoolean true => "true"
  | VBoolean false => "false"
  | VNumber n => Number_toString n
  | VString s => s
  | VUndefined => "undefined"
  | VNull => "null"
  | VArray _ | VObject _ => JSON_stringify value
  end.

Definition valueToString (value : JSValue) : string :=
  if isNullish value then ""
  else if isObject value then JSON_stringify value
  else String_of value.

(** The body of the [forEach] callback: the text stored under the
    field's name. *)
Definition configCell (existing : option (gmap string JSValue))
    (setting : SettingsSchema) : string :=
  let fromDefault :=
    if negb (isNullish (setting_default setting))
    then valueToString (setting_default setting)
    else "" in
  match existing with
  | Some e =>
      match e !! setting_name setting with
      | Some v => valueToString v
      | None => fromDefault
      end
  | None => fromDefault
  end.

(** The [forEach] over the schema, writing into [values]. *)
Definition buildLoop (existing : option (gmap string JSValue))
    (schema : list SettingsSchema) (values : gmap string string)
    : gmap string string :=
  fold_left
    (fun values setting =>
       <[setting_name setting := configCell existing setting]> values)
    schema values.

Definition buildConfigValues (metadata : option AdapterMetadata)
    (existing : option (gmap string JSValue)) : gmap string string :=
  match metadata with
  | None => ∅
  | Some m => buildLoop existing (adapter_settingsSchema m) ∅
  end.

Definition handleAdapterChange (adapters : list AdapterMetadata)
    (identifier : string) (prev : FormState) : FormState :=
  let metadata :=
    List.find (fun adapter => String.eqb (adapter_identifier adapter) identifier)
              adapters in
  {| form_name := form_name prev;
     form_adapter := identifier;
     form_configValues := buildConfigValues metadata None;
     form_enabled := form_enabled prev |}.

End Conversions.

Definition handleConfigChange (key value : string) (prev : FormState) : FormState :=
  {| form_name := form_name prev;
     form_adapter := form_adapter prev;
     form_configValues := <[key := value]> (form_configValues prev);
     form_enabled := form_enabled prev |}.

(** ** Coercing one raw value *)

(** The result object of [parseConfigValue]: [{ value }] or [{ error }]. *)
Record ParseResult : Type := {
  parse_value : option JSValue;
  parse_error : option string
}.

Definition parsedValue (v : JSValue) : ParseResult :=
  {| parse_value := Some v; parse_error := None |}.

Definition parseFailure (msg : string) : ParseResult :=
  {| parse_value := None; parse_error := Some msg |}.

Definition parseConfigValue (setting : SettingsSchema) (raw : string) : ParseResult :=
  let kind := JsString.toLowerCase (setting_type setting) in
  let trimmed := JsString.trim raw in
  if Array_includes ["int"; "integer"] kind then
    let parsed := parseInt10 trimmed in
    if Number_isNaN parsed
    then parseFailure (setting_name setting ++ " must be an integer")
    else parsedValue (VNumber parsed)
  else if Array_includes ["float"; "double"; "number"] kind then
    let parsed := parseFloat trimmed in
    if Number_isNaN parsed
    then parseFailure (setting_name setting ++ " must be a number")
    else parsedValue (VNumber parsed)
  else if Array_includes ["bool"; "boolean"] kind then
    let normalized := JsString.toLowerCase trimmed in
    if Array_includes ["true"; "1"; "yes"; "on"] normalized
    then parsedValue (VBoolean true)
    else if Array_includes ["false"; "0"; "no"; "off"] normalized
    then parsedValue (VBoolean false)
    else parseFailure (setting_name setting ++ " must be a boolean")
  else parsedValue (VString raw).

(** ** Collecting the payload *)

(** The result object of [collectConfigPayload]. *)
Record CollectResult : Type := {
  collect_config : gmap string JSValue;
  collect_error : option string
}.

(** [if (x.error)]: the error is present and not the empty string. *)
Definition errorSet (e : option string) : bool :=
  match e with Some msg => truthy msg | None => false end.

(** The [for ... of] loop over the schema, with [config] as built so
    far; a [return] inside the loop ends it. *)
Fixpoint collectLoop (schema : list SettingsSchema)
    (configValues : gmap string string) (config : gmap string JSValue)
    : CollectResult :=
  match schema with
  | [] => {| collect_config := config; collect_error := None |}
  | setting :: rest =>
      let rawValue := default "" (configValues !! setting_name setting) in
      if JsString.isEmpty (JsString.trim rawValue) then
        if setting_required setting
        then {| collect_config := ∅;
                collect_error := Some (setting_name setting ++ " is required") |}
        else collectLoop rest configValues config
      else
        let result := parseConfigValue setting rawValue in
        if errorSet (parse_error result)
        then {| collect_config := ∅; collect_error := parse_error result |}
        else collectLoop rest configValues
               (<[setting_name setting := default VUndefined (parse_value result)]> config)
  end.

Definition collectConfigPayload (metadata : AdapterMetadata)
    (configValues : gmap string string) : CollectResult :=
  collectLoop (adapter_settingsSchema metadata) configValues ∅.

(** ** Submitting the form *)

(** What [handleFormSubmit] does up to its first [await]: state updates
    and the request handed to the API client. *)
Inductive Action : Type :=
| SetFormError (e : option string)
| SetActionNotice (n : option string)
| SetSubmitting (b : bool)
| CreateProvider (payload : ProviderRequest)
| UpdateProvider (name : string) (payload : ProviderRequest).

Definition selectedAdapter (adapters : list AdapterMetadata)
    (formState : FormState) : option AdapterMetadata :=
  List.find (fun adapter => String.eqb (adapter_identifier adapter) (form_adapter formState))
            adapters.

Definition handleFormSubmit (formMode : FormMode)
    (adapters : list AdapterMetadata) (formState : FormState) : list Action :=
  SetFormError None :: SetActionNotice None ::
  let trimmedName := JsString.trim (form_name formState) in
  if negb (truthy trimmedName) then
    [SetFormError (Some "Provider name is required")]
  else
    match selectedAdapter adapters formState with
    | None => [SetFormError (Some "Adapter selection is required")]
    | Some adapter =>
        let r := collectConfigPayload adapter (form_configValues formState) in
        if errorSet (collect_error r) then [SetFormError (collect_error r)]
        else
          let payload :=
            {| request_name := trimmedName;
               request_adapter_identifier := adapter_identifier adapter;
               request_adapter_config := collect_config r;
               request_enabled := form_enabled formState |} in
          [SetSubmitting true;
           match formMode with
           | Create => CreateProvider payload
           | Edit => UpdateProvider trimmedName payload
           end]
    end.

(** ** The instrument browser *)

Definition INSTRUMENTS_PAGE_SIZE : nat := 120.

(** [a ?? b ?? ''] *)
Definition instrumentBaseValue (instrument : Instrument) : string :=
  match baseAsset instrument with
  | Some s => s
  | None => default "" (base_currency instrument)
  end.

Definition instrumentQuoteValue (instrument : Instrument) : string :=
  match quoteAsset instrument with
  | Some s => s
  | None => default "" (quote_currency instrument)
  end.

(** The predicate handed to [Array.prototype.filter]. The symbol is a
    string in the data model, so the optional chaining on it and its
    fallback to the empty string have nothing to do. *)
Definition instrumentMatches (query : string) (instrument : Instrument) : bool :=
  let symbol := JsString.toLowerCase (symbol instrument) in
  let base := JsString.toLowerCase (instrumentBaseValue instrument) in
  let quote := JsString.toLowerCase (instrumentQuoteValue instrument) in
  JsString.includes symbol query || JsString.includes base query
  || JsString.includes quote query.

Definition filteredInstruments (detail : option ProviderDetail)
    (instrumentQuery : string) : list Instrument :=
  match detail with
  | None => []
  | Some d =>
      let query := JsString.toLowerCase (JsString.trim instrumentQuery) in
      if negb (truthy query) then detail_instruments d
      else List.filter (instrumentMatches query) (detail_instruments d)
  end.

(** [Math.ceil(a / b)] on array lengths, where the quotient is exact. *)
Definition Math_ceil_div (a b : nat) : nat :=
  a / b + (if a mod b =? 0 then 0 else 1).

(** [Array.prototype.slice(start, end)] with [0 <= start <= end]. *)
Definition Array_slice {A : Type} (l : list A) (start end_ : nat) : list A :=
  take (end_ - start) (drop start l).

(** The values derived in the body of the component on each render. *)
Record Pager : Type := {
  totalInstrumentCount : nat;
  totalInstrumentPages : nat;
  effectiveInstrumentPage : nat;
  pageStart : nat;
  currentPageInstruments : list Instrument;
  pageDisplayStart : nat;
  pageDisplayEnd : nat
}.

Definition pager (filtered : list Instrument) (instrumentPage : nat) : Pager :=
  let count := length filtered in
  let pages :=
    if count =? 0 then 0 else Math_ceil_div count INSTRUMENTS_PAGE_SIZE in
  let effective :=
    if pages =? 0 then 0 else Nat.min instrumentPage (pages - 1) in
  let start := effective * INSTRUMENTS_PAGE_SIZE in
  let current := Array_slice filtered start (start + INSTRUMENTS_PAGE_SIZE) in
  {| totalInstrumentCount := count;
     totalInstrumentPages := pages;
     effectiveInstrumentPage := effective;
     pageStart := start;
     currentPageInstruments := current;
     pageDisplayStart := if count =? 0 then 0 else start + 1;
     pageDisplayEnd := if count =? 0 then 0 else start + length current |}.

#[global] Instance Instrument_eq_dec : EqDecision Instrument.
Proof. solve_decision. Defined.

(** ** State of the detail view and its effects *)

Record ViewState : Type := {
  instrumentQuery : string;
  instrumentPage : nat;
  selectedInstrument : option Instrument
}.

#[global] Instance ViewState_eq_dec : EqDecision ViewState.
Proof. solve_decision. Defined.

(** A call of one of the three state setters with a plain value. *)
Inductive Update : Type :=
| SetInstrumentQuery (q : string)
| SetInstrumentPage (p : nat)
| SetSelectedInstrument (s : option Instrument).

Definition applyUpdate (st : ViewState) (u : Update) : ViewState :=
  match u with
  | SetInstrumentQuery q =>
      {| instrumentQuery := q; instrumentPage := instrumentPage st;
         selectedInstrument := selectedInstrument st |}
  | SetInstrumentPage p =>
      {| instrumentQuery := instrumentQuery st; instrumentPage := p;
         selectedInstrument := selectedInstrument st |}
  | SetSelectedInstrument s =>
      {| instrumentQuery := instrumentQuery st;
         instrumentPage := instrumentPage st; selectedInstrument := s |}
  end.

(** Queued updates are applied in the order of the calls. *)
Definition applyUpdates (st : ViewState) (us : list Update) : ViewState :=
  fold_left applyUpdate us st.

(** Effect on [detail], for a loaded detail. *)
Definition detailEffect : list Update :=
  [SetInstrumentQuery ""; SetInstrumentPage 0; SetSelectedInstrument None].

(** Effect on [instrumentQuery]. *)
Definition queryEffect : list Update := [SetInstrumentPage 0].

(** Effect on [filteredInstruments.length, instrumentPage]. *)
Definition clampEffect (filtered : list Instrument) (instrumentPage : nat)
    : list Update :=
  let total := length filtered in
  if total =? 0 then
    if negb (instrumentPage =? 0) then [SetInstrumentPage 0] else []
  else
    let maxPage := Nat.max 0 (Math_ceil_div total INSTRUMENTS_PAGE_SIZE - 1) in
    if maxPage <? instrumentPage then [SetInstrumentPage maxPage] else [].

(** Effect on [filteredInstruments, instrumentPage, selectedInstrument].
    The test [match !== selectedInstrument] compares references; equal
    references are equal records, and for distinct references with equal
    records the call stores a record equal to the one already there, so
    the state that results is the same either way. *)
Definition selectionEffect (filtered : list Instrument) (instrumentPage : nat)
    (selected : option Instrument) : list Update :=
  if length filtered =? 0 then
    match selected with
    | Some _ => [SetSelectedInstrument None]
    | None => []
    end
  else
    let maxPage :=
      Nat.max 0 (Math_ceil_div (length filtered) INSTRUMENTS_PAGE_SIZE - 1) in
    let currentPage := Nat.min instrumentPage maxPage in
    let start := currentPage * INSTRUMENTS_PAGE_SIZE in
    let currentSlice :=
      Array_slice filtered start (start + INSTRUMENTS_PAGE_SIZE) in
    match currentSlice with
    | [] => []
    | first :: _ =>
        match selected with
        | None => [SetSelectedInstrument (Some first)]
        | Some sel =>
            match List.find
                    (fun instrument => String.eqb (symbol instrument) (symbol sel))
                    currentSlice with
            | Some m =>
                if bool_decide (m = sel) then []
                else [SetSelectedInstrument (Some m)]
            | None => [SetSelectedInstrument (Some first)]
            end
        end
    end.

(** The state once the selection effect has run on it. *)
Definition resyncSelection (filtered : list Instrument) (st : ViewState) : ViewState :=
  applyUpdates st
    (selectionEffect filtered (instrumentPage st) (selectedInstrument st)).

(** *** Rendering and flushing effects for a loaded detail

    While one provider detail [d] stays loaded and its dialog open, the
    effects on [detailOpen] and on [detail] do not run again; the three
    remaining effects run, in the order of their declaration, when one of
    their dependencies differs from the previous render. *)

(** [useMemo] hands out [detail.instruments] itself for a blank query and
    a new array for any other; the memoised array is a different object
    when the query changed and one of the two queries is not blank. *)
Definition filteredChanged (prevQuery curQuery : string) : bool :=
  let blank q := JsString.isEmpty (JsString.toLowerCase (JsString.trim q)) in
  negb (String.eqb prevQuery curQuery)
  && negb (blank prevQuery && blank curQuery).

(** The dependency arrays, compared between two consecutive renders. *)
Definition queryChanged (prev cur : ViewState) : bool :=
  negb (String.eqb (instrumentQuery prev) (instrumentQuery cur)).

Definition pageChanged (prev cur : ViewState) : bool :=
  negb (instrumentPage prev =? instrumentPage cur).

Definition selectedChanged (prev cur : ViewState) : bool :=
  negb (bool_decide (selectedInstrument prev = selectedInstrument cur)).

Definition lengthChanged (d : ProviderDetail) (prev cur : ViewState) : bool :=
  negb (length (filteredInstruments (Some d) (instrumentQuery prev))
        =? length (filteredInstruments (Some d) (instrumentQuery cur))).

Definition selectionDepsChanged (prev cur : ViewState) : bool :=
  filteredChanged (instrumentQuery prev) (instrumentQuery cur)
  || pageChanged prev cur || selectedChanged prev cur.

(** The setter calls of the effects that run after the render of [cur],
    [prev] being the render before it. *)
Definition effectsOf (d : ProviderDetail) (prev cur : ViewState) : list Update :=
  let filtered := filteredInstruments (Some d) (instrumentQuery cur) in
  ((if queryChanged prev cur then queryEffect else [])
   ++ (if lengthChanged d prev cur || pageChanged prev cur
       then clampEffect filtered (instrumentPage cur) else [])
   ++ (if selectionDepsChanged prev cur
       then selectionEffect filtered (instrumentPage cur) (selectedInstrument cur)
       else []))%list.

(** Renders and effect passes until a pass leaves the state as it is
    (a setter called with the current value schedules no render). Three
    passes always suffice; the fuel only makes the recursion structural. *)
Fixpoint settle (fuel : nat) (d : ProviderDetail) (prev cur : ViewState)
    : option ViewState :=
  match fuel with
  | 0 => None
  | S n =>
      let next := applyUpdates cur (effectsOf d prev cur) in
      if bool_decide (next = cur) then Some cur else settle n d cur next
  end.

Definition initialView : ViewState :=
  {| instrumentQuery := ""; instrumentPage := 0; selectedInstrument := None |}.

(** The render that first shows [d]: the previous render had no detail
    and an empty filtered list, so the effects on [detail], on the length
    (when it is not 0) and on the filtered list run. *)
Definition openDetail (d : ProviderDetail) : option ViewState :=
  let filtered := filteredInstruments (Some d) "" in
  let us :=
    (detailEffect
     ++ (if negb (length filtered =? 0) then clampEffect filtered 0 else [])
     ++ selectionEffect filtered 0 None)%list in
  let next := applyUpdates initialView us in
  if bool_decide (next = initialView) then Some initialView
  else settle 8 d initialView next.

(** What the operator does in the dialog. *)
Inductive Event : Type :=
| QueryInput (text : string)
| PreviousClick
| NextClick
| RowClick (instrument : Instrument).

(** The setter call of each handler; the functional updates of the two
    page buttons read the state and the rendered page count. *)
Definition eventUpdate (d : ProviderDetail) (st : ViewState) (ev : Event) : Update :=
  match ev with
  | QueryInput text => SetInstrumentQuery text
  | PreviousClick => SetInstrumentPage (Nat.max (instrumentPage st - 1) 0)
  | NextClick =>
      let pages :=
        totalInstrumentPages
          (pager (filteredInstruments (Some d) (instrumentQuery st))
                 (instrumentPage st)) in
      SetInstrumentPage
        (if pages =? 0 then 0 else Nat.min (instrumentPage st + 1) (pages - 1))
  | RowClick instrument => SetSelectedInstrument (Some instrument)
  end.

(** One step of the view: the handler, then renders and effects until
    the state is settled. *)
Definition dispatch (d : ProviderDetail) (st : ViewState) (ev : Event)
    : option ViewState :=
  let cur := applyUpdate st (eventUpdate d st ev) in
  if bool_decide (cur = st) then Some st else settle 8 d st cur.

(** ** Vocabulary of the specification *)










(** The raw text of a field: its entry in the values, the empty string
    when there is none. *)
Definition rawValueOf (configValues : gmap string string)
    (setting : SettingsSchema) : string :=
  default "" (configValues !! setting_name setting).

(** The field is empty after trimming. *)
Definition Blank (configValues : gmap string string) (setting : SettingsSchema) : Prop :=
  JsString.trim (rawValueOf configValues setting) = "".

(** The field is not blank and the coercer returns [v] for it. *)
Definition Coerced (configValues : gmap string string) (setting : SettingsSchema)
    (v : JSValue) : Prop :=
  ~ Blank configValues setting /\
  parseConfigValue setting (rawValueOf configValues setting) = parsedValue v.

(** The field stops the collection with the message [e]: it is required
    and blank, or it is not blank and the coercer reports [e]. *)
Definition FieldFails (configValues : gmap string string) (setting : SettingsSchema)
    (e : string) : Prop :=
  (Blank configValues setting /\ setting_required setting = true /\
   e = setting_name setting ++ " is required")
  \/ (~ Blank configValues setting /\
      parse_error (parseConfigValue setting (rawValueOf configValues setting)) = Some e).

Definition Passes (configValues : gmap string string) (setting : SettingsSchema) : Prop :=
  forall e, ~ FieldFails configValues setting e.

(** The entry of [k] comes from the last field named [k] that is not
    blank, or from the starting payload when there is none. *)
Definition LastCoerced (configValues : gmap string string)
    (schema : list SettingsSchema) (k : string) (v : JSValue) : Prop :=
  exists pre setting post,
    schema = (pre ++ setting :: post)%list /\ setting_name setting = k /\
    Coerced configValues setting v /\
    Forall (fun p => setting_name p = k -> Blank configValues p) post.

(** The requests to the API client among the recorded actions. *)
Definition isRequest (a : Action) : bool :=
  match a with
  | CreateProvider _ | UpdateProvider _ _ => true
  | _ => false
  end.

Definition requests (trace : list Action) : list Action :=
  List.filter isRequest trace.

(** The two state resets every submission starts with. *)
Definition submitPrologue : list Action :=
  [SetFormError None; SetActionNotice None].




(** [q] occurs in [s]. *)
Definition Substring (q s : string) : Prop :=
  exists pre post, s = pre ++ q ++ post.

(** The value of an asset: the primary field, else the legacy field,
    else the empty string. *)
Definition Resolves (primary legacy : option string) (v : string) : Prop :=
  primary = Some v
  \/ (primary = None /\ legacy = Some v)
  \/ (primary = None /\ legacy = None /\ v = "").

(** The lower-cased query [q] occurs in the lower-cased symbol, base
    asset or quote asset of the instrument. *)
Definition QueryMatches (q : string) (instrument : Instrument) : Prop :=
  exists base quote,
    Resolves (baseAsset instrument) (base_currency instrument) base
    /\ Resolves (quoteAsset instrument) (quote_currency instrument) quote
    /\ (Substring q (JsString.toLowerCase (symbol instrument))
        \/ Substring q (JsString.toLowerCase base)
        \/ Substring q (JsString.toLowerCase quote)).

(** [r] keeps, in the order of [l], exactly the elements of [l] that
    satisfy [P]. *)
Inductive Selects {A : Type} (P : A -> Prop) : list A -> list A -> Prop :=
| Selects_nil : Selects P [] []
| Selects_keep x l r : P x -> Selects P l r -> Selects P (x :: l) (x :: r)
| Selects_drop x l r : ~ P x -> Selects P l r -> Selects P (x :: l) r.

(** [k] is the ceiling of [n / size]: the least number of pages of
    [size] elements that hold [n] elements. *)
Definition CeilingOf (n size k : nat) : Prop :=
  n <= size * k /\ forall j, n <= size * j -> k <= j.

(** A list of calls of the page setter only. *)
Definition pageOnly (us : list Update) : Prop :=
  Forall (fun u => exists p, u = SetInstrumentPage p) us.

(** The selection effect would leave the selection of [st] as it is. *)
Definition SelectionSettled (filtered : list Instrument) (st : ViewState) : Prop :=
  selectedInstrument (resyncSelection filtered st) = selectedInstrument st.

(** The states the view of a loaded detail can settle in. *)
Inductive Reachable (d : ProviderDetail) : ViewState -> Prop :=
| Reachable_open st : openDetail d = Some st -> Reachable d st
| Reachable_step st ev st' :
    Reachable d st -> dispatch d st ev = Some st' -> Reachable d st'.

(** ** Sample data *)

Definition portSetting : SettingsSchema :=
  {| setting_name := "port"; setting_type := "Integer";
     setting_default := VUndefined; setting_required := true |}.

Definition labelSetting : SettingsSchema :=
  {| setting_name := "label"; setting_type := "string";
     setting_default := VString "main"; setting_required := false |}.

Definition verboseSetting : SettingsSchema :=
  {| setting_name := "verbose"; setting_type := "bool";
     setting_default := VBoolean false; setting_required := false |}.

Definition sampleAdapter : AdapterMetadata :=
  {| adapter_identifier := "binance"; adapter_displayName := "Binance";
     adapter_settingsSchema := [portSetting; labelSetting; verboseSetting] |}.

Definition fieldA : SettingsSchema :=
  {| setting_name := "a"; setting_type := "int";
     setting_default := VUndefined; setting_required := true |}.

Definition fieldB : SettingsSchema :=
  {| setting_name := "b"; setting_type := "int";
     setting_default := VUndefined; setting_required := false |}.

Definition twoFieldAdapter : AdapterMetadata :=
  {| adapter_identifier := "two"; adapter_displayName := "Two fields";
     adapter_settingsSchema := [fieldA; fieldB] |}.

(** [a] holds only white space, [b] holds text that is no integer. *)
Definition twoFieldValues : gmap string string :=
  <["a" := "   "]> (<["b" := "zzz"]> ∅).

Definition blankPortForm : FormState :=
  {| form_name := " kraken-1 "; form_adapter := "binance";
     form_configValues := <["port" := " "]> (<["label" := "x"]> ∅);
     form_enabled := true |}.

(** Stand-ins for the two conversions left open; the sample schemas
    below carry neither an object nor a number. *)
Definition constBuiltins : Builtins :=
  {| JSON_stringify := fun _ => "{}"; Number_toString := fun _ => "0" |}.

Definition krakenAdapter : AdapterMetadata :=
  {| adapter_identifier := "kraken"; adapter_displayName := "Kraken";
     adapter_settingsSchema := [labelSetting] |}.

(** A form that was filled in for [sampleAdapter]. *)
Definition filledForm : FormState :=
  {| form_name := "main"; form_adapter := "binance";
     form_configValues :=
       <["port" := "443"]> (<["label" := "x"]> (<["verbose" := "on"]> ∅));
     form_enabled := true |}.

Definition instrument (sym : string) (base quote : option string) : Instrument :=
  {| symbol := sym; instrument_type := Some "spot";
     baseAsset := base; base_currency := None;
     quoteAsset := quote; quote_currency := None |}.

Definition btcusdt : Instrument := instrument "BTCUSDT" None (Some "USDT").
Definition wrapped : Instrument :=
  {| symbol := "XBT-PERP"; instrument_type := None;
     baseAsset := None; base_currency := Some "BTC";
     quoteAsset := None; quote_currency := Some "USD" |}.
Definition ethusdt : Instrument := instrument "ETHUSDT" (Some "ETH") (Some "USDT").

Definition sampleDetail (instruments : list Instrument) : ProviderDetail :=
  {| detail_name := "main"; detail_adapter := sampleAdapter;
     detail_settings := ∅; detail_running := true;
     detail_instruments := instruments |}.

(** The instrument [XRPUSDT] as the selection remembers it, and as a
    later list of instruments carries it. *)
Definition xrpStale : Instrument := instrument "XRPUSDT" (Some "XRP") None.
Definition xrpFresh : Instrument := instrument "XRPUSDT" (Some "XRP") (Some "USDT").

Definition viewOn (page : nat) (selected : option Instrument) : ViewState :=
  {| instrumentQuery := ""; instrumentPage := page;
     selectedInstrument := selected |}.

(** [count] instruments on one base asset, with symbols [base-0],
    [base-1], ... *)
Definition numbered (base : string) (count : nat) : list Instrument :=
  map (fun i : nat => instrument (base ++ "-" ++ pretty i) (Some base) (Some "USDT"))
      (seq 0 count).

(** A provider with 250 instruments, 130 on [AAA] and 120 on [BBB]. *)
Definition bigDetail : ProviderDetail :=
  sampleDetail (numbered "AAA" 130 ++ numbered "BBB" 120)%list.

(** ** Further vocabulary: the other coercions *)

Fixpoint allWhiteSpace (s : string) : bool :=
  match s with
  | "" => true
  | String c t => JsString.isWhiteSpace c && allWhiteSpace t
  end.


(** The type tag reads [bool] or [boolean], whatever the case of its
    letters. *)
Definition isBooleanTag (setting : SettingsSchema) : Prop :=
  JsString.toLowerCase (setting_type setting) = "bool"
  \/ JsString.toLowerCase (setting_type setting) = "boolean".

(** The type tag is none of the eight tags the coercer knows. *)
Definition isTextTag (setting : SettingsSchema) : Prop :=
  ~ In (JsString.toLowerCase (setting_type setting))
       ["int"; "integer"; "float"; "double"; "number"; "bool"; "boolean"].



(** ** Further parts of the page: editing and the adapter index *)

(** The form state [handleEdit] stores once the provider has been
    fetched. *)
Definition editFormState {builtins : Builtins}
    (detailResponse : ProviderDetail) : FormState :=
  {| form_name := detail_name detailResponse;
     form_adapter := adapter_identifier (detail_adapter detailResponse);
     form_configValues :=
       buildConfigValues (Some (detail_adapter detailResponse))
                         (Some (detail_settings detailResponse));
     form_enabled := detail_running detailResponse |}.

(** The [Map] of the adapters by identifier, filled by [forEach] and
    [set]. *)
Definition adapterByIdentifier (adapters : list AdapterMetadata)
    : gmap string AdapterMetadata :=
  fold_left (fun map adapter => <[adapter_identifier adapter := adapter]> map)
            adapters ∅.

(** ** Further vocabulary: the pages and the view *)

(** The pages of a filtered list, one after the other. *)
Definition allPages (filtered : list Instrument) : list (list Instrument) :=
  map (fun page => currentPageInstruments (pager filtered page))
      (seq 0 (totalInstrumentPages (pager filtered 0))).

(** Effect on [detailOpen], once the dialog is closed. *)
Definition detailOpenEffect : list Update :=
  [SetSelectedInstrument None; SetInstrumentQuery ""; SetInstrumentPage 0].

(** Closing the dialog of a loaded detail: the render with the dialog
    closed runs the effect on [detailOpen] alone, the detail stays
    loaded, and the view settles as after any other change. *)
Definition closeDetail (d : ProviderDetail) (st : ViewState) : option ViewState :=
  let next := applyUpdates st detailOpenEffect in
  if bool_decide (next = st) then Some st else settle 8 d st next.

(** The view on the first page with the first instrument selected. *)
Definition firstSelected (d : ProviderDetail) : ViewState :=
  {| instrumentQuery := ""; instrumentPage := 0;
     selectedInstrument := head (detail_instruments d) |}.

(** [selectedInstrument?.symbol === instrument.symbol]: the row of the
    instrument is highlighted. *)
Definition isSelected (selected : option Instrument) (instrument : Instrument) : bool :=
  match selected with
  | Some s => String.eqb (symbol s) (symbol instrument)
  | None => false
  end.

(** [detail.instruments.length !== filteredInstruments.length]: the
    count above the list is followed by the total. *)
Definition showsTotal (d : ProviderDetail) (query : string) : bool :=
  negb (length (detail_instruments d)
        =? length (filteredInstruments (Some d) query)).

(** ** Further parts of the page: the handlers that wait for the server

    A handler is the list of its setter calls and requests in the order
    they happen, given how each awaited request ends. *)

Module Lifecycle.

(** What a [catch] receives: an [Error] with its message, or anything
    else. *)
Inductive Thrown : Type :=
| ErrorObject (message : string)
| OtherValue.

(** [err instanceof Error ? err.message : fallback] *)
Definition messageOr (err : Thrown) (fallback : string) : string :=
  match err with
  | ErrorObject message => message
  | OtherValue => fallback
  end.

(** How an awaited request ends. *)
Inductive Settled (A : Type) : Type :=
| Fulfilled (a : A)
| Rejected (err : Thrown).

Arguments Fulfilled {A} a.
Arguments Rejected {A} err.

Record Provider : Type := {
  provider_name : string;
  provider_adapter : string;
  provider_identifier : string;
  provider_instrumentCount : nat;
  provider_settings : gmap string JSValue;
  provider_running : bool
}.

(** The requests handed to the API client. *)
Inductive Request : Type :=
| GetProviders
| GetProvider (name : string)
| StartProvider (name : string)
| StopProvider (name : string)
| DeleteProvider (name : string)
| CreateProvider (payload : ProviderRequest)
| UpdateProvider (name : string) (payload : ProviderRequest).

(** A setter call, the confirmation prompt, or a request. *)
Inductive Step : Type :=
| SetProviders (providers : list Provider)
| SetActionError (e : option string)
| SetActionNotice (n : option string)
| SetPendingAction (p : option string)
| SetFormOpen (b : bool)
| SetFormMode (m : FormMode)
| SetFormState (f : FormState)
| SetFormError (e : option string)
| SetFormLoading (b : bool)
| SetSubmitting (b : bool)
| SetDetailOpen (b : bool)
| SetDetail (d : option ProviderDetail)
| SetDetailLoading (b : bool)
| SetDetailError (e : option string)
| Confirm (message : string)
| Call (r : Request).

Definition refreshProviders (refresh : Settled (list Provider)) : list Step :=
  Call GetProviders ::
  match refresh with
  | Fulfilled providers => [SetProviders providers]
  | Rejected err =>
      [SetActionError (Some (messageOr err "Failed to refresh providers"))]
  end.

Definition resetForm : list Step :=
  [SetFormState defaultFormState; SetFormError None; SetFormLoading false].

Definition handleFormOpenChange (open : bool) : list Step :=
  (SetFormOpen open :: (if negb open then resetForm ++ [SetFormMode Create] else []))%list.

Definition handleCreateClick : list Step :=
  (SetFormMode Create :: resetForm ++ [SetFormOpen true])%list.

Definition handleEdit {builtins : Builtins} (name : string)
    (loaded : Settled ProviderDetail) : list Step :=
  ([SetFormMode Edit; SetFormOpen true; SetFormLoading true; SetFormError None;
    Call (GetProvider name)]
   ++ match loaded with
      | Fulfilled detailResponse => [SetFormState (editFormState detailResponse)]
      | Rejected err => [SetFormError (Some (messageOr err "Failed to load provider"))]
      end
   ++ [SetFormLoading false])%list.

Definition handleDetail (name : string) (loaded : Settled ProviderDetail) : list Step :=
  ([SetDetailOpen true; SetDetailLoading true; SetDetailError None; SetDetail None;
    Call (GetProvider name)]
   ++ match loaded with
      | Fulfilled detailResponse => [SetDetail (Some detailResponse)]
      | Rejected err =>
          [SetDetailError (Some (messageOr err "Failed to load provider details"))]
      end
   ++ [SetDetailLoading false])%list.

(** What [handleFormSubmit] does from its request on, [payload] being
    the request body it has built for the trimmed name. *)
Definition submitContinuation (formMode : FormMode) (trimmedName : string)
    (payload : ProviderRequest) (saved : Settled unit)
    (refresh : Settled (list Provider)) : list Step :=
  ([SetSubmitting true;
    Call (match formMode with
          | Create => CreateProvider payload
          | Edit => UpdateProvider trimmedName payload
          end)]
   ++ match saved with
      | Fulfilled _ =>
          refreshProviders refresh
          ++ [SetActionNotice
                (Some (match formMode with
                       | Create => "Provider " ++ trimmedName ++ " created successfully"
                       | Edit => "Provider " ++ trimmedName ++ " updated successfully"
                       end)%string)]
          ++ handleFormOpenChange false
      | Rejected err => [SetFormError (Some (messageOr err "Failed to save provider"))]
      end
   ++ [SetSubmitting false])%list.

Definition handleStart (name : string) (started : Settled unit)
    (refresh : Settled (list Provider)) : list Step :=
  ([SetActionError None; SetActionNotice None; SetPendingAction (Some name);
    Call (StartProvider name)]
   ++ match started with
      | Fulfilled _ =>
          refreshProviders refresh
          ++ [SetActionNotice (Some ("Provider " ++ name ++ " started")%string)]
      | Rejected err =>
          [SetActionError (Some (messageOr err ("Failed to start " ++ name)%string))]
      end
   ++ [SetPendingAction None])%list.

Definition handleStop (name : string) (stopped : Settled unit)
    (refresh : Settled (list Provider)) : list Step :=
  ([SetActionError None; SetActionNotice None; SetPendingAction (Some name);
    Call (StopProvider name)]
   ++ match stopped with
      | Fulfilled _ =>
          refreshProviders refresh
          ++ [SetActionNotice (Some ("Provider " ++ name ++ " stopped")%string)]
      | Rejected err =>
          [SetActionError (Some (messageOr err ("Failed to stop " ++ name)%string))]
      end
   ++ [SetPendingAction None])%list.

(** [hasWindow] is [typeof window !== 'undefined'], [confirmed] the
    answer to the prompt. *)
Definition handleDelete (hasWindow confirmed : bool) (name : string)
    (deleted : Settled unit) (refresh : Settled (list Provider)) : list Step :=
  ((if hasWindow then [Confirm ("Delete provider " ++ name ++ "?")%string] else [])
   ++ if hasWindow && negb confirmed then []
      else
        [SetActionError None; SetActionNotice None; SetPendingAction (Some name);
         Call (DeleteProvider name)]
        ++ match deleted with
           | Fulfilled _ =>
               refreshProviders refresh
               ++ [SetActionNotice (Some ("Provider " ++ name ++ " deleted")%string)]
           | Rejected err =>
               [SetActionError (Some (messageOr err ("Failed to delete " ++ name)%string))]
           end
        ++ [SetPendingAction None])%list.

(** The value of a state variable after a handler: the argument of the
    last call of its setter, else the value before. *)
Definition finalValue {A : Type} (setter : Step -> option A) (trace : list Step)
    (before : A) : A :=
  fold_left (fun value step => default value (setter step)) trace before.

Definition onProviders (s : Step) : option (list Provider) :=
  match s with SetProviders v => Some v | _ => None end.
Definition onActionError (s : Step) : option (option string) :=
  match s with SetActionError v => Some v | _ => None end.
Definition onActionNotice (s : Step) : option (option string) :=
  match s with SetActionNotice v => Some v | _ => None end.
Definition onPendingAction (s : Step) : option (option string) :=
  match s with SetPendingAction v => Some v | _ => None end.
Definition onFormOpen (s : Step) : option bool :=
  match s with SetFormOpen v => Some v | _ => None end.
Definition onFormMode (s : Step) : option FormMode :=
  match s with SetFormMode v => Some v | _ => None end.
Definition onFormState (s : Step) : option FormState :=
  match s with SetFormState v => Some v | _ => None end.
Definition onFormError (s : Step) : option (option string) :=
  match s with SetFormError v => Some v | _ => None end.
Definition onFormLoading (s : Step) : option bool :=
  match s with SetFormLoading v => Some v | _ => None end.
Definition onSubmitting (s : Step) : option bool :=
  match s with SetSubmitting v => Some v | _ => None end.
Definition onDetail (s : Step) : option (option ProviderDetail) :=
  match s with SetDetail v => Some v | _ => None end.
Definition onDetailLoading (s : Step) : option bool :=
  match s with SetDetailLoading v => Some v | _ => None end.
Definition onDetailError (s : Step) : option (option string) :=
  match s with SetDetailError v => Some v | _ => None end.

(** The requests of a trace, in order. *)
Definition requestsOf (trace : list Step) : list Request :=
  omap (fun s => match s with Call r => Some r | _ => None end) trace.

(** The request succeeded. *)
Definition fulfilled {A : Type} (outcome : Settled A) : bool :=
  match outcome with Fulfilled _ => true | Rejected _ => false end.

End Lifecycle.

(** What a start, stop or delete handler leaves behind: the pending
    marker is set to the provider before the request and cleared at the
    end; the list is fetched again, and the notice set, only after the
    request succeeded; the error is that of the request, else that of the
    fetch, else none; the providers change only through a fetch that
    succeeded. *)
Definition ActionSettles (trace : list Lifecycle.Step) (name : string)
    (request : Lifecycle.Request) (outcome : Lifecycle.Settled unit)
    (refresh : Lifecycle.Settled (list Lifecycle.Provider))
    (notice failure : string) : Prop :=
  (forall pending, Lifecycle.finalValue Lifecycle.onPendingAction trace pending = None)
  /\ (exists before after,
        trace = (before ++ Lifecycle.Call request :: after)%list
        /\ Lifecycle.requestsOf before = []
        /\ forall pending,
             Lifecycle.finalValue Lifecycle.onPendingAction before pending = Some name)
  /\ Lifecycle.requestsOf trace
     = request :: (if Lifecycle.fulfilled outcome then [Lifecycle.GetProviders] else [])
  /\ (forall n, Lifecycle.finalValue Lifecycle.onActionNotice trace n
                = if Lifecycle.fulfilled outcome then Some notice else None)
  /\ (forall e, Lifecycle.finalValue Lifecycle.onActionError trace e
                = match outcome, refresh with
                  | Lifecycle.Rejected err, _ => Some (Lifecycle.messageOr err failure)
                  | Lifecycle.Fulfilled _, Lifecycle.Rejected err =>
                      Some (Lifecycle.messageOr err "Failed to refresh providers")
                  | Lifecycle.Fulfilled _, Lifecycle.Fulfilled _ => None
                  end)
  /\ (forall providers,
        Lifecycle.finalValue Lifecycle.onProviders trace providers
        = match outcome, refresh with
          | Lifecycle.Fulfilled _, Lifecycle.Fulfilled fetched => fetched
          | _, _ => providers
          end).

(** ** Further sample data *)


(** A provider as the server returns it for editing. *)
Definition storedDetail : ProviderDetail :=
  {| detail_name := "main"; detail_adapter := sampleAdapter;
     detail_settings :=
       <["port" := VNumber (intNumber 443)]>
         (<["label" := VString " spot "]> (<["verbose" := VBoolean true]> ∅));
     detail_running := true; detail_instruments := [] |}.

(** * Properties *)

(** ** Strings *)

Lemma append_cons (x : ascii) (a b : string) :
  String x a ++ b = String x (a ++ b).
Proof. reflexivity. Qed.

Lemma append_empty_l (a : string) : "" ++ a = a.
Proof. reflexivity. Qed.

Lemma append_assoc (a b c : string) : (a ++ b) ++ c = a ++ b ++ c.
Proof.
  induction a as [|x a IH]; [reflexivity |].
  rewrite !append_cons. now rewrite IH.
Qed.


Lemma length_append (a b : string) :
  String.length (a ++ b) = String.length a + String.length b.
Proof.
  induction a as [|x a IH]; [reflexivity |].
  rewrite append_cons. simpl. now rewrite IH.
Qed.

Lemma isEmpty_true (s : string) : JsString.isEmpty s = true <-> s = "".
Proof. destruct s; simpl; split; congruence. Qed.

Lemma isEmpty_false (s : string) : JsString.isEmpty s = false <-> s <> "".
Proof. destruct s; simpl; split; congruence. Qed.

Lemma startsWith_spec (s p : string) :
  JsString.startsWith s p = true <-> exists post, s = p ++ post.
Proof.
  revert s. induction p as [|a p IH]; intros s; simpl.
  - split; [intros _; now exists s | reflexivity].
  - destruct s as [|b s].
    + split; [discriminate | intros [post H]; discriminate].
    + rewrite andb_true_iff, Ascii.eqb_eq, IH. split.
      * intros [-> [post ->]]. now exists post.
      * intros [post H]. injection H as -> ->. split; [reflexivity | now exists post].
Qed.

Lemma includes_spec (s q : string) :
  JsString.includes s q = true <-> exists pre post, s = pre ++ q ++ post.
Proof.
  induction s as [|c s IH].
  - simpl. rewrite orb_false_r, startsWith_spec. split.
    + intros [post H]. now exists "", post.
    + intros [pre [post H]]. destruct pre; [now exists post | discriminate].
  - change (JsString.includes (String c s) q)
      with (JsString.startsWith (String c s) q || JsString.includes s q).
    rewrite orb_true_iff, startsWith_spec, IH. split.
    + intros [[post H] | [pre [post H]]].
      * now exists "", post.
      * exists (String c pre), post. simpl. now rewrite H.
    + intros [pre [post H]]. destruct pre as [|x pre].
      * left. now exists post.
      * right. simpl in H. injection H as -> ->. now exists pre, post.
Qed.



Lemma trimEnd_head (c : ascii) (t : string) :
  JsString.isWhiteSpace c = false ->
  JsString.trimEnd (String c t) = String c (JsString.trimEnd t).
Proof. intros H. simpl. now rewrite H. Qed.

Lemma trimStart_head (s : string) :
  JsString.trimStart s = "" \/
  exists c t, JsString.trimStart s = String c t /\ JsString.isWhiteSpace c = false.
Proof.
  induction s as [|c s IH]; simpl; [now left |].
  destruct (JsString.isWhiteSpace c) eqn:E; [exact IH |].
  right. now exists c, s.
Qed.

(** A trimmed string has no white space left in front. *)
Lemma trimStart_trim (s : string) :
  JsString.trimStart (JsString.trim s) = JsString.trim s.
Proof.
  unfold JsString.trim.
  destruct (trimStart_head s) as [-> | [c [t [-> H]]]]; [reflexivity |].
  rewrite trimEnd_head by exact H. simpl. now rewrite H.
Qed.





(** ** The integer branch of [parseConfigValue] *)








Lemma parsed_not_failure (v : JSValue) (msg : string) :
  parsedValue v <> parseFailure msg.
Proof. discriminate. Qed.






(** ** Collecting the payload *)

Lemma append_nonempty (a : string) (c : ascii) (b : string) :
  truthy (a ++ String c b) = true.
Proof. destruct a; reflexivity. Qed.

(** The coercer answers with a value or with a message, never with
    both, and its message is never the empty string. *)
Lemma parseConfigValue_shape (setting : SettingsSchema) (raw : string) :
  (exists v, parseConfigValue setting raw = parsedValue v)
  \/ (exists e, parseConfigValue setting raw = parseFailure e /\ truthy e = true).
Proof.
  unfold parseConfigValue.
  repeat match goal with
         | |- context [if ?b then _ else _] => destruct b
         end;
    first [ left; eexists; reflexivity
          | right; eexists; split; [reflexivity | apply append_nonempty] ].
Qed.

Lemma blank_dec (configValues : gmap string string) (setting : SettingsSchema) :
  JsString.isEmpty (JsString.trim (rawValueOf configValues setting)) = true
  <-> Blank configValues setting.
Proof. apply isEmpty_true. Qed.

(** Every field is skipped, coerced or failing. *)
Lemma field_cases (configValues : gmap string string) (setting : SettingsSchema) :
  (Blank configValues setting /\ setting_required setting = false)
  \/ (exists v, Coerced configValues setting v)
  \/ (exists e, FieldFails configValues setting e).
Proof.
  destruct (JsString.isEmpty (JsString.trim (rawValueOf configValues setting))) eqn:E.
  - apply blank_dec in E. destruct (setting_required setting) eqn:R.
    + right. right. eexists. left. eauto.
    + left. eauto.
  - assert (~ Blank configValues setting) as NB.
    { intros B. apply blank_dec in B. congruence. }
    destruct (parseConfigValue_shape setting (rawValueOf configValues setting))
      as [[v Hv] | [e [He _]]].
    + right. left. exists v. now split.
    + right. right. exists e. right. split; [exact NB |]. now rewrite He.
Qed.

Lemma collectLoop_skip configValues setting rest config :
  Blank configValues setting -> setting_required setting = false ->
  collectLoop (setting :: rest) configValues config
  = collectLoop rest configValues config.
Proof.
  intros B R. apply blank_dec in B. cbn [collectLoop].
  fold (rawValueOf configValues setting). now rewrite B, R.
Qed.

Lemma collectLoop_store configValues setting rest config v :
  Coerced configValues setting v ->
  collectLoop (setting :: rest) configValues config
  = collectLoop rest configValues (<[setting_name setting := v]> config).
Proof.
  intros [NB Hv]. cbn [collectLoop]. fold (rawValueOf configValues setting).
  destruct (JsString.isEmpty (JsString.trim (rawValueOf configValues setting))) eqn:E.
  - apply blank_dec in E. contradiction.
  - now rewrite Hv.
Qed.

Lemma collectLoop_stop configValues setting rest config e :
  FieldFails configValues setting e ->
  collectLoop (setting :: rest) configValues config
  = {| collect_config := ∅; collect_error := Some e |}.
Proof.
  intros [(B & R & ->) | (NB & He)]; cbn [collectLoop];
    fold (rawValueOf configValues setting).
  - apply blank_dec in B. now rewrite B, R.
  - destruct (JsString.isEmpty (JsString.trim (rawValueOf configValues setting))) eqn:E.
    + apply blank_dec in E. contradiction.
    + destruct (parseConfigValue_shape setting (rawValueOf configValues setting))
        as [[v Hv] | [e' [He' T]]].
      * rewrite Hv in He. discriminate.
      * rewrite He' in *. simpl in He. injection He as ->.
        simpl. now rewrite T.
Qed.

Lemma passes_cases configValues setting :
  Passes configValues setting ->
  (Blank configValues setting /\ setting_required setting = false)
  \/ (exists v, Coerced configValues setting v).
Proof.
  intros P. destruct (field_cases configValues setting) as [H | [H | [e H]]];
    [now left | now right | now destruct (P e)].
Qed.

(** The first failing field decides, whatever follows it. *)
Lemma collectLoop_first_failure configValues pre setting post config e :
  Forall (Passes configValues) pre ->
  FieldFails configValues setting e ->
  collectLoop (pre ++ setting :: post) configValues config
  = {| collect_config := ∅; collect_error := Some e |}.
Proof.
  intros Hpre Hf. revert config.
  induction Hpre as [|p pre Hp _ IH]; intros config.
  - now apply collectLoop_stop.
  - rewrite <- app_comm_cons.
    destruct (passes_cases _ _ Hp) as [[B R] | [v Hv]].
    + rewrite collectLoop_skip by assumption. apply IH.
    + rewrite (collectLoop_store _ _ _ _ v) by assumption. apply IH.
Qed.

Lemma collectLoop_no_error configValues schema config :
  Forall (Passes configValues) schema ->
  collect_error (collectLoop schema configValues config) = None.
Proof.
  intros H. revert config. induction H as [|p schema Hp _ IH]; intros config.
  - reflexivity.
  - destruct (passes_cases _ _ Hp) as [[B R] | [v Hv]].
    + rewrite collectLoop_skip by assumption. apply IH.
    + rewrite (collectLoop_store _ _ _ _ v) by assumption. apply IH.
Qed.

Ltac split_conj := repeat match goal with |- _ /\ _ => split end.

Lemma coerced_unique configValues setting v w :
  Coerced configValues setting v -> Coerced configValues setting w -> v = w.
Proof. intros [_ H1] [_ H2]. rewrite H1 in H2. now injection H2. Qed.

Lemma collectLoop_lookup configValues schema config k v :
  Forall (Passes configValues) schema ->
  collect_config (collectLoop schema configValues config) !! k = Some v
  <-> LastCoerced configValues schema k v
      \/ (config !! k = Some v /\
          Forall (fun p => setting_name p = k -> Blank configValues p) schema).
Proof.
  intros H. revert config. induction H as [|p schema Hp _ IH]; intros config.
  - simpl. split.
    + intros Hk. right. split; [exact Hk | constructor].
    + intros [(pre & s & post & E & _) | [Hk _]]; [| exact Hk].
      destruct pre; discriminate.
  - destruct (passes_cases _ _ Hp) as [[B R] | [v0 Hv0]].
    + rewrite collectLoop_skip by assumption. rewrite IH. split.
      * intros [(pre & s & post & -> & Hn & Hc & Hpost) | [Hk Hall]].
        -- left. exists (p :: pre), s, post. split_conj; (assumption || reflexivity).
        -- right. split; [exact Hk |]. constructor; [intros _; exact B | exact Hall].
      * intros [(pre & s & post & E & Hn & Hc & Hpost) | [Hk Hall]].
        -- destruct pre as [|p' pre]; simpl in E; injection E as <- ->.
           ++ destruct Hc as [NB _]. contradiction.
           ++ left. exists pre, s, post. split_conj; (assumption || reflexivity).
        -- right. split; [exact Hk |]. now inversion Hall.
    + rewrite (collectLoop_store _ _ _ _ v0) by assumption. rewrite IH. split.
      * intros [(pre & s & post & -> & Hn & Hc & Hpost) | [Hk Hall]].
        -- left. exists (p :: pre), s, post. split_conj; (assumption || reflexivity).
        -- destruct (decide (setting_name p = k)) as [E | NE].
           ++ rewrite E, lookup_insert_eq in Hk. injection Hk as <-.
              left. exists [], p, schema. split_conj; (assumption || reflexivity).
           ++ rewrite lookup_insert_ne in Hk by exact NE.
              right. split; [exact Hk |].
              constructor; [intros E; contradiction | exact Hall].
      * intros [(pre & s & post & E & Hn & Hc & Hpost) | [Hk Hall]].
        -- destruct pre as [|p' pre]; simpl in E; injection E as <- ->.
           ++ right. rewrite (coerced_unique _ _ _ _ Hc Hv0), Hn.
              rewrite lookup_insert_eq. split; [reflexivity | exact Hpost].
           ++ left. exists pre, s, post. split_conj; (assumption || reflexivity).
        -- right. inversion Hall as [|? ? Hp' Hrest]; subst.
           assert (setting_name p <> k) as NE.
           { intros E. destruct Hv0 as [NB _]. apply NB, Hp', E. }
           rewrite lookup_insert_ne by exact NE. now split.
Qed.

Lemma names_after_distinct (pre : list SettingsSchema) setting post :
  NoDup (map setting_name (pre ++ setting :: post)) ->
  Forall (fun p => setting_name p <> setting_name setting) post.
Proof.
  rewrite map_app, map_cons. intros H.
  apply NoDup_app in H as (_ & _ & H). apply NoDup_cons in H as [H _].
  apply Forall_forall. intros p Hp E. apply H.
  rewrite <- E. apply list_elem_of_In, in_map, list_elem_of_In, Hp.
Qed.

(** With distinct names, the last field of a name is the only one. *)
Lemma lastCoerced_unique_names configValues schema k v :
  NoDup (map setting_name schema) ->
  LastCoerced configValues schema k v
  <-> exists setting,
        In setting schema /\ setting_name setting = k /\
        Coerced configValues setting v.
Proof.
  intros ND. split.
  - intros (pre & s & post & -> & Hn & Hc & _). exists s.
    split; [apply in_elt | now split].
  - intros (s & Hin & Hn & Hc). apply in_split in Hin as (pre & post & ->).
    exists pre, s, post. split_conj; try assumption; try reflexivity.
    eapply Forall_impl; [apply (names_after_distinct _ _ _ ND) |].
    intros p NE E. simpl in NE. congruence.
Qed.

(** C2. [collectConfigPayload] walks the schema in order. The first
    field that fails, because it is required and blank after trimming
    (message ["<name> is required"]) or because the coercer rejects its
    text (the coercer's message, unchanged), ends the walk: the result is
    that one error with an empty payload, whatever the later fields hold.
    When no field fails there is no error, every key of the payload is
    the name of a schema field that is not blank and holds its coerced
    value, and a blank optional field contributes nothing; with distinct
    field names the payload is exactly the set of non-blank fields with
    their coerced values. *)
Theorem collectConfigPayload_first_error_wins
    (metadata : AdapterMetadata) (configValues : gmap string string) :
  let schema := adapter_settingsSchema metadata in
  let result := collectConfigPayload metadata configValues in
  (forall pre setting post e,
      schema = (pre ++ setting :: post)%list ->
      Forall (Passes configValues) pre ->
      FieldFails configValues setting e ->
      result = {| collect_config := ∅; collect_error := Some e |})
  /\ (Forall (Passes configValues) schema ->
      collect_error result = None
      /\ (forall k v, collect_config result !! k = Some v
                      <-> LastCoerced configValues schema k v)
      /\ (NoDup (map setting_name schema) ->
          (forall k v, collect_config result !! k = Some v
                       <-> exists setting,
                             In setting schema /\ setting_name setting = k /\
                             Coerced configValues setting v)
          /\ (forall setting, In setting schema -> Blank configValues setting ->
                collect_config result !! setting_name setting = None))).
Proof.
  intros schema result. subst schema result. unfold collectConfigPayload. split.
  - intros pre setting post e -> Hpre Hf. now apply collectLoop_first_failure.
  - intros Hall. split; [now apply collectLoop_no_error |].
    assert (Hlook : forall k v,
      collect_config (collectLoop (adapter_settingsSchema metadata) configValues ∅) !! k
        = Some v <-> LastCoerced configValues (adapter_settingsSchema metadata) k v).
    { intros k v. rewrite collectLoop_lookup by exact Hall. split.
      - intros [H | [H _]]; [exact H |]. rewrite lookup_empty in H. discriminate.
      - intros H. now left. }
    split; [exact Hlook |]. intros ND. split.
    + intros k v. rewrite Hlook. now apply lastCoerced_unique_names.
    + intros setting Hin B.
      destruct (collect_config _ !! setting_name setting) as [v|] eqn:E;
        [| reflexivity].
      apply Hlook, (lastCoerced_unique_names _ _ _ _ ND) in E
        as (s & Hs & Hn & [NB _]).
      exfalso. apply NB. unfold Blank, rawValueOf in *. now rewrite Hn.
Qed.

(** The schema [a] (required), [b] (optional) of the specification,
    with [a] left blank: the error names [a] whatever [b] holds. *)
Lemma collectConfigPayload_first_error_wins_witness :
  collectConfigPayload twoFieldAdapter twoFieldValues
  = {| collect_config := ∅; collect_error := Some "a is required" |}.
Proof.
  destruct (collectConfigPayload_first_error_wins twoFieldAdapter twoFieldValues)
    as [H _].
  apply (H [] fieldA [fieldB]).
  - reflexivity.
  - constructor.
  - left. split; [reflexivity |]. split; reflexivity.
Defined.

(** ** Submitting the form *)

(** An error of the collection is never the empty string. *)
Lemma collectLoop_error_truthy configValues schema config e :
  collect_error (collectLoop schema configValues config) = Some e ->
  truthy e = true.
Proof.
  revert config. induction schema as [|p schema IH]; intros config H.
  - discriminate.
  - destruct (field_cases configValues p) as [[B R] | [[v Hv] | [e' Hf]]].
    + rewrite collectLoop_skip in H by assumption. eauto.
    + rewrite (collectLoop_store _ _ _ _ v) in H by assumption. eauto.
    + rewrite (collectLoop_stop _ _ _ _ e') in H by assumption.
      injection H as <-. destruct Hf as [(_ & _ & ->) | (_ & He)].
      * apply append_nonempty.
      * destruct (parseConfigValue_shape p (rawValueOf configValues p))
          as [[v Hv] | [e'' [He' T]]]; rewrite ?Hv, ?He' in He;
          [discriminate | now injection He as <-].
Qed.

Lemma errorSet_collect metadata configValues :
  errorSet (collect_error (collectConfigPayload metadata configValues))
  = match collect_error (collectConfigPayload metadata configValues) with
    | Some _ => true
    | None => false
    end.
Proof.
  destruct (collect_error _) as [e|] eqn:E; [| reflexivity].
  simpl. eapply collectLoop_error_truthy, E.
Qed.

Lemma truthy_false (s : string) : truthy s = false <-> s = "".
Proof. unfold truthy. rewrite negb_false_iff. apply isEmpty_true. Qed.

(** C7. A submission first clears the form error and the notice. Then,
    in this order: a provider name that is empty after trimming blocks it
    with ["Provider name is required"]; otherwise a missing adapter
    blocks it with ["Adapter selection is required"]; otherwise the
    payload is collected and its error, if any, blocks it. In these three
    cases no request reaches the API client, and in the first two the
    configuration values are not looked at. Only when all three pass is
    the single create or update request issued. *)
Theorem handleFormSubmit_preconditions
    (formMode : FormMode) (adapters : list AdapterMetadata) (formState : FormState) :
  let trimmedName := JsString.trim (form_name formState) in
  let trace := handleFormSubmit formMode adapters formState in
  (trimmedName = "" ->
     trace = (submitPrologue ++ [SetFormError (Some "Provider name is required")])%list
     /\ requests trace = [])
  /\ (trimmedName <> "" -> selectedAdapter adapters formState = None ->
      trace = (submitPrologue ++ [SetFormError (Some "Adapter selection is required")])%list
      /\ requests trace = [])
  /\ (forall adapter e,
        trimmedName <> "" -> selectedAdapter adapters formState = Some adapter ->
        collect_error (collectConfigPayload adapter (form_configValues formState)) = Some e ->
        trace = (submitPrologue ++ [SetFormError (Some e)])%list
        /\ requests trace = [])
  /\ (forall adapter,
        trimmedName <> "" -> selectedAdapter adapters formState = Some adapter ->
        collect_error (collectConfigPayload adapter (form_configValues formState)) = None ->
        let payload :=
          {| request_name := trimmedName;
             request_adapter_identifier := adapter_identifier adapter;
             request_adapter_config :=
               collect_config (collectConfigPayload adapter (form_configValues formState));
             request_enabled := form_enabled formState |} in
        let request :=
          match formMode with
          | Create => CreateProvider payload
          | Edit => UpdateProvider trimmedName payload
          end in
        trace = (submitPrologue ++ [SetSubmitting true; request])%list
        /\ requests trace = [request]).
Proof.
  intros trimmedName trace. subst trimmedName trace. unfold handleFormSubmit.
  split; [| split; [| split]].
  - intros ->. now split.
  - intros Hn ->.
    destruct (truthy _) eqn:T; [now split | now apply truthy_false in T].
  - intros adapter e Hn -> He.
    destruct (truthy _) eqn:T; [| now apply truthy_false in T].
    cbn [negb]. cbv iota. rewrite errorSet_collect, He. now split.
  - intros adapter Hn -> He.
    destruct (truthy _) eqn:T; [| now apply truthy_false in T].
    cbn [negb]. cbv iota. rewrite errorSet_collect, He.
    split; [reflexivity |]. now destruct formMode.
Qed.

(** A required integer field left blank: the submission is blocked with
    the message naming the field and nothing is sent. *)
Lemma handleFormSubmit_preconditions_witness :
  handleFormSubmit Create [sampleAdapter] blankPortForm
  = (submitPrologue ++ [SetFormError (Some "port is required")])%list
  /\ requests (handleFormSubmit Create [sampleAdapter] blankPortForm) = [].
Proof.
  destruct (handleFormSubmit_preconditions Create [sampleAdapter] blankPortForm)
    as (_ & _ & H & _).
  apply (H sampleAdapter "port is required").
  - discriminate.
  - reflexivity.
  - reflexivity.
Defined.

(** ** Building the editable values *)

Section BuildValues.

Context {builtins : Builtins}.

Lemma buildLoop_cons existing p schema values :
  buildLoop existing (p :: schema) values
  = buildLoop existing schema (<[setting_name p := configCell existing p]> values).
Proof. reflexivity. Qed.

Lemma buildLoop_other existing schema values k :
  Forall (fun p => setting_name p <> k) schema ->
  buildLoop existing schema values !! k = values !! k.
Proof.
  intros H. revert values. induction H as [|p schema Hp _ IH]; intros values.
  - reflexivity.
  - rewrite buildLoop_cons, IH. now apply lookup_insert_ne.
Qed.

(** The last field of a name writes the entry that stays. *)
Lemma buildLoop_last existing pre setting post values :
  Forall (fun p => setting_name p <> setting_name setting) post ->
  buildLoop existing (pre ++ setting :: post) values !! setting_name setting
  = Some (configCell existing setting).
Proof.
  intros H. unfold buildLoop. rewrite fold_left_app.
  change (buildLoop existing (setting :: post)
            (buildLoop existing pre values) !! setting_name setting
          = Some (configCell existing setting)).
  rewrite buildLoop_cons, buildLoop_other by exact H.
  apply lookup_insert_eq.
Qed.

Lemma buildLoop_keys existing schema values k :
  is_Some (buildLoop existing schema values !! k)
  <-> In k (map setting_name schema) \/ is_Some (values !! k).
Proof.
  revert values. induction schema as [|p schema IH]; intros values.
  - simpl. tauto.
  - rewrite buildLoop_cons, IH. simpl.
    destruct (decide (setting_name p = k)) as [E | NE].
    + rewrite E, lookup_insert_eq. split; [intros _; now left; left | intros _].
      right. eauto.
    + rewrite lookup_insert_ne by exact NE. tauto.
Qed.

Lemma build_keys (metadata : AdapterMetadata) existing k :
  is_Some (buildConfigValues (Some metadata) existing !! k)
  <-> In k (map setting_name (adapter_settingsSchema metadata)).
Proof.
  unfold buildConfigValues.
  rewrite buildLoop_keys, lookup_empty. split; [| tauto].
  intros [H | [x H]]; [exact H | discriminate].
Qed.



End BuildValues.


(** ** Filtering instruments *)

Lemma toLowerCase_empty (s : string) : JsString.toLowerCase s = "" <-> s = "".
Proof. destruct s; simpl; split; congruence. Qed.

Lemma resolves_base (i : Instrument) :
  Resolves (baseAsset i) (base_currency i) (instrumentBaseValue i).
Proof.
  unfold Resolves, instrumentBaseValue.
  destruct (baseAsset i); [now left |]. right.
  destruct (base_currency i); simpl; [now left | now right].
Qed.

Lemma resolves_quote (i : Instrument) :
  Resolves (quoteAsset i) (quote_currency i) (instrumentQuoteValue i).
Proof.
  unfold Resolves, instrumentQuoteValue.
  destruct (quoteAsset i); [now left |]. right.
  destruct (quote_currency i); simpl; [now left | now right].
Qed.

Lemma resolves_unique (primary legacy : option string) (v w : string) :
  Resolves primary legacy v -> Resolves primary legacy w -> v = w.
Proof.
  unfold Resolves. intros [H | [[H1 H2] | (H1 & H2 & H3)]]
    [K | [[K1 K2] | (K1 & K2 & K3)]]; congruence.
Qed.

(** The callback of [filter] decides [QueryMatches]. *)
Lemma instrumentMatches_spec (q : string) (i : Instrument) :
  instrumentMatches q i = true <-> QueryMatches q i.
Proof.
  unfold instrumentMatches, QueryMatches.
  rewrite !orb_true_iff, !includes_spec. fold (Substring q (JsString.toLowerCase (symbol i))).
  split.
  - intros H. exists (instrumentBaseValue i), (instrumentQuoteValue i).
    split; [apply resolves_base |]. split; [apply resolves_quote |].
    unfold Substring. tauto.
  - intros (base & quote & Hb & Hq & H).
    rewrite (resolves_unique _ _ _ _ (resolves_base i) Hb).
    rewrite (resolves_unique _ _ _ _ (resolves_quote i) Hq).
    unfold Substring in H. tauto.
Qed.

Lemma filter_selects {A : Type} (f : A -> bool) (P : A -> Prop) (l : list A) :
  (forall x, f x = true <-> P x) -> Selects P l (List.filter f l).
Proof.
  intros H. induction l as [|x l IH]; simpl.
  - constructor.
  - destruct (f x) eqn:E.
    + apply Selects_keep; [now apply H | exact IH].
    + apply Selects_drop; [| exact IH]. intros Px. apply H in Px. congruence.
Qed.

(** C6. With a query that is empty after trimming, the filtered list is
    the list of instruments itself. Otherwise it keeps, in their order,
    exactly the instruments whose lower-cased symbol, base asset or quote
    asset contains the trimmed, lower-cased query, where an asset is the
    primary field, else the legacy field, else the empty string. *)
Theorem filteredInstruments_substring_match (d : ProviderDetail) (query : string) :
  (JsString.trim query = "" ->
   filteredInstruments (Some d) query = detail_instruments d)
  /\ (JsString.trim query <> "" ->
      Selects (QueryMatches (JsString.toLowerCase (JsString.trim query)))
              (detail_instruments d) (filteredInstruments (Some d) query)).
Proof.
  unfold filteredInstruments, truthy. split.
  - intros ->. reflexivity.
  - intros H.
    destruct (JsString.isEmpty (JsString.toLowerCase (JsString.trim query))) eqn:E.
    + rewrite isEmpty_true, toLowerCase_empty in E. contradiction.
    + simpl. apply filter_selects. intros x. apply instrumentMatches_spec.
Qed.

(** The query [" BtC "] keeps the instrument with symbol [BTCUSDT] and
    the one whose legacy base asset is [BTC], and drops [ETHUSDT]. *)
Lemma filteredInstruments_substring_match_witness :
  Selects (QueryMatches "btc") [btcusdt; ethusdt; wrapped] [btcusdt; wrapped].
Proof.
  destruct (filteredInstruments_substring_match
              (sampleDetail [btcusdt; ethusdt; wrapped]) " BtC ") as [_ H].
  apply H. discriminate.
Defined.

(** ** Paging *)

Lemma Math_ceil_div_ceiling (n size : nat) :
  0 < size -> CeilingOf n size (Math_ceil_div n size).
Proof.
  intros Hs. unfold CeilingOf, Math_ceil_div.
  pose proof (Nat.div_mod_eq n size) as E.
  pose proof (Nat.mod_upper_bound n size ltac:(lia)) as B.
  destruct (n mod size =? 0) eqn:Z.
  - apply Nat.eqb_eq in Z. split; [nia |]. intros j Hj. nia.
  - apply Nat.eqb_neq in Z. split; [nia |]. intros j Hj.
    assert (n / size < j) by nia. lia.
Qed.

Lemma Array_slice_lookup {A : Type} (l : list A) (start size i : nat) :
  Array_slice l start (start + size) !! i
  = if decide (i < size) then l !! (start + i) else None.
Proof.
  unfold Array_slice. replace (start + size - start) with size by lia.
  rewrite lookup_take. destruct (decide (i < size)); [apply lookup_drop | reflexivity].
Qed.

Lemma Array_slice_length {A : Type} (l : list A) (start size : nat) :
  length (Array_slice l start (start + size)) = Nat.min size (length l - start).
Proof.
  unfold Array_slice. replace (start + size - start) with size by lia.
  now rewrite length_take, length_drop.
Qed.

Lemma pages_positive (n : nat) :
  n <> 0 -> Math_ceil_div n INSTRUMENTS_PAGE_SIZE <> 0.
Proof.
  intros Hn E.
  destruct (Math_ceil_div_ceiling n INSTRUMENTS_PAGE_SIZE) as [H _];
    [unfold INSTRUMENTS_PAGE_SIZE; lia |].
  rewrite E in H. lia.
Qed.

(** The last page starts inside the list. *)
Lemma last_page_starts_inside (n : nat) :
  n <> 0 -> (Math_ceil_div n INSTRUMENTS_PAGE_SIZE - 1) * INSTRUMENTS_PAGE_SIZE < n.
Proof.
  intros Hn. pose proof (pages_positive n Hn) as P.
  destruct (Math_ceil_div_ceiling n INSTRUMENTS_PAGE_SIZE) as [_ L];
    [unfold INSTRUMENTS_PAGE_SIZE; lia |].
  destruct (le_lt_dec n ((Math_ceil_div n INSTRUMENTS_PAGE_SIZE - 1) * INSTRUMENTS_PAGE_SIZE))
    as [Hle | Hlt]; [| exact Hlt].
  specialize (L (Math_ceil_div n INSTRUMENTS_PAGE_SIZE - 1)). lia.
Qed.

(** C4. With pages of 120: the number of pages is the ceiling of the
    length over 120 (0 for the empty list); the effective page is 0 when
    there is no page and otherwise the requested page clamped to the last
    one; the page shown holds the elements from [effective * 120] up to,
    but excluding, [effective * 120 + 120]; the display bounds are
    1-based and inclusive, and both 0 for the empty list. 250
    instruments make 3 pages, and page 5 is then clamped to page 2. *)
Theorem pager_clamps (filtered : list Instrument) (requested : nat) :
  let p := pager filtered requested in
  CeilingOf (length filtered) 120 (totalInstrumentPages p)
  /\ (filtered = [] -> totalInstrumentPages p = 0)
  /\ (totalInstrumentPages p = 0 -> effectiveInstrumentPage p = 0)
  /\ (totalInstrumentPages p <> 0 ->
      effectiveInstrumentPage p = Nat.min requested (totalInstrumentPages p - 1))
  /\ (forall i,
        currentPageInstruments p !! i
        = if decide (i < 120)
          then filtered !! (effectiveInstrumentPage p * 120 + i) else None)
  /\ (filtered = [] -> pageDisplayStart p = 0 /\ pageDisplayEnd p = 0)
  /\ (filtered <> [] ->
      pageDisplayStart p = effectiveInstrumentPage p * 120 + 1
      /\ pageDisplayEnd p
         = pageDisplayStart p + length (currentPageInstruments p) - 1)
  /\ (length filtered = 250 ->
      totalInstrumentPages p = 3
      /\ (requested = 5 -> effectiveInstrumentPage p = 2)).
Proof.
  intros p. subst p. unfold pager. cbn [totalInstrumentPages
    effectiveInstrumentPage currentPageInstruments pageDisplayStart pageDisplayEnd].
  change INSTRUMENTS_PAGE_SIZE with 120.
  split; [| split; [| split; [| split; [| split; [| split; [| split]]]]]].
  - destruct (length filtered =? 0) eqn:E.
    + apply Nat.eqb_eq in E. rewrite E. split; [lia | intros; lia].
    + apply Math_ceil_div_ceiling. lia.
  - intros ->. reflexivity.
  - intros ->. reflexivity.
  - intros H. apply Nat.eqb_neq in H. now rewrite H.
  - intros i. apply Array_slice_lookup.
  - intros ->. now split.
  - intros H. assert (length filtered <> 0) as Hn by (destruct filtered; simpl; congruence).
    apply Nat.eqb_neq in Hn. rewrite Hn. split; [reflexivity | lia].
  - intros H. rewrite H. split; [reflexivity |]. intros ->. reflexivity.
Qed.

Lemma pager_clamps_witness :
  totalInstrumentPages (pager (repeat btcusdt 250) 5) = 3
  /\ effectiveInstrumentPage (pager (repeat btcusdt 250) 5) = 2.
Proof.
  destruct (pager_clamps (repeat btcusdt 250) 5) as (_ & _ & _ & _ & _ & _ & _ & H).
  destruct H as [H1 H2]; [reflexivity |].
  split; [exact H1 | apply H2; reflexivity].
Defined.

(** ** Re-anchoring the selection *)

(** The slice the selection effect computes is the page the render
    shows. *)
Lemma selectionEffect_on_page (filtered : list Instrument) (page : nat)
    (selected : option Instrument) :
  filtered <> [] ->
  selectionEffect filtered page selected =
    match currentPageInstruments (pager filtered page) with
    | [] => []
    | first :: _ =>
        match selected with
        | None => [SetSelectedInstrument (Some first)]
        | Some sel =>
            match List.find
                    (fun instrument => String.eqb (symbol instrument) (symbol sel))
                    (currentPageInstruments (pager filtered page)) with
            | Some m =>
                if bool_decide (m = sel) then []
                else [SetSelectedInstrument (Some m)]
            | None => [SetSelectedInstrument (Some first)]
            end
        end
    end.
Proof.
  intros H. assert (length filtered <> 0) as Hn by (destruct filtered; simpl; congruence).
  unfold selectionEffect, pager. cbn [currentPageInstruments].
  pose proof (pages_positive _ Hn) as P.
  apply Nat.eqb_neq in Hn, P. rewrite Hn, P. reflexivity.
Qed.

Lemma page_nonempty (filtered : list Instrument) (page : nat) :
  filtered <> [] -> currentPageInstruments (pager filtered page) <> [].
Proof.
  intros H E. assert (length filtered <> 0) as Hn by (destruct filtered; simpl; congruence).
  apply (f_equal length) in E. revert E.
  unfold pager. cbn [currentPageInstruments].
  pose proof (pages_positive _ Hn) as P. pose proof (last_page_starts_inside _ Hn) as L.
  apply Nat.eqb_neq in Hn as Hn', P as P'. rewrite Hn', P'.
  rewrite Array_slice_length. simpl length. unfold INSTRUMENTS_PAGE_SIZE in *.
  nia.
Qed.

Lemma page_empty (page : nat) : currentPageInstruments (pager [] page) = [].
Proof. reflexivity. Qed.

Lemma find_first_symbol (sym : string) (pre : list Instrument) m post :
  symbol m = sym -> Forall (fun i => symbol i <> sym) pre ->
  List.find (fun i => String.eqb (symbol i) sym) (pre ++ m :: post) = Some m.
Proof.
  intros Hm H. induction H as [|x pre Hx _ IH]; simpl.
  - apply String.eqb_eq in Hm. now rewrite Hm.
  - apply String.eqb_neq in Hx. now rewrite Hx.
Qed.

Lemma find_no_symbol (sym : string) (l : list Instrument) :
  Forall (fun i => symbol i <> sym) l ->
  List.find (fun i => String.eqb (symbol i) sym) l = None.
Proof.
  intros H. induction H as [|x l Hx _ IH]; simpl; [reflexivity |].
  apply String.eqb_neq in Hx. now rewrite Hx.
Qed.

(** The selection left by the effect, by cases on the page shown. *)
Lemma resyncSelection_value (filtered : list Instrument) (st : ViewState) :
  selectedInstrument (resyncSelection filtered st) =
    match currentPageInstruments (pager filtered (instrumentPage st)) with
    | [] => None
    | first :: _ =>
        match selectedInstrument st with
        | None => Some first
        | Some sel =>
            match List.find
                    (fun instrument => String.eqb (symbol instrument) (symbol sel))
                    (currentPageInstruments (pager filtered (instrumentPage st))) with
            | Some m => Some m
            | None => Some first
            end
        end
    end.
Proof.
  unfold resyncSelection. destruct filtered as [|x filtered].
  - simpl. destruct (selectedInstrument st) eqn:S; simpl; congruence.
  - rewrite selectionEffect_on_page by discriminate.
    pose proof (page_nonempty (x :: filtered) (instrumentPage st) ltac:(discriminate)) as NE.
    destruct (currentPageInstruments _) as [|first rest]; [contradiction |].
    destruct (selectedInstrument st) as [sel|] eqn:S; [| reflexivity].
    destruct (List.find _ _) as [m|]; [| reflexivity].
    destruct (bool_decide (m = sel)) eqn:B; [| reflexivity].
    apply bool_decide_eq_true in B. simpl. congruence.
Qed.

(** C5. The selection effect leaves: no selection when the page shown
    is empty; the first element of the page when nothing was selected;
    the first element of the page whose symbol is that of the previous
    selection when there is one (the element of the page, whatever the
    other fields of the previous selection were); and otherwise the first
    element of the page. The query and the page are left as they are. *)
Theorem resyncSelection_cases (filtered : list Instrument) (st : ViewState) :
  let slice := currentPageInstruments (pager filtered (instrumentPage st)) in
  let st' := resyncSelection filtered st in
  (slice = [] -> selectedInstrument st' = None)
  /\ (forall first rest,
        slice = first :: rest -> selectedInstrument st = None ->
        selectedInstrument st' = Some first)
  /\ (forall prev pre m post,
        selectedInstrument st = Some prev ->
        slice = (pre ++ m :: post)%list -> symbol m = symbol prev ->
        Forall (fun i => symbol i <> symbol prev) pre ->
        selectedInstrument st' = Some m)
  /\ (forall prev first rest,
        selectedInstrument st = Some prev -> slice = first :: rest ->
        Forall (fun i => symbol i <> symbol prev) slice ->
        selectedInstrument st' = Some first)
  /\ instrumentQuery st' = instrumentQuery st
  /\ instrumentPage st' = instrumentPage st.
Proof.
  intros slice st'. subst slice st'. rewrite resyncSelection_value.
  split; [| split; [| split; [| split]]].
  - intros ->. reflexivity.
  - intros first rest -> ->. reflexivity.
  - intros prev pre m post -> E Hm Hpre. rewrite E.
    rewrite (find_first_symbol _ _ _ _ Hm Hpre). now destruct pre.
  - intros prev first rest -> E Hall. rewrite E in *.
    now rewrite (find_no_symbol _ _ Hall).
  - unfold resyncSelection.
    destruct (selectionEffect _ _ _) as [|u us] eqn:E; [now split |].
    unfold selectionEffect in E.
    repeat match type of E with
           | context [if ?b then _ else _] => destruct b
           | context [match ?x with _ => _ end] => destruct x
           end; try discriminate; injection E as <- <-; now split.
Qed.

Lemma resyncSelection_cases_witness :
  selectedInstrument
    (resyncSelection [btcusdt; xrpFresh; ethusdt] (viewOn 0 (Some xrpStale)))
  = Some xrpFresh.
Proof.
  destruct (resyncSelection_cases [btcusdt; xrpFresh; ethusdt]
              (viewOn 0 (Some xrpStale))) as (_ & _ & H & _).
  apply (H xrpStale [btcusdt] xrpFresh [ethusdt]).
  - reflexivity.
  - reflexivity.
  - reflexivity.
  - repeat constructor. discriminate.
Defined.

(** ** The selection in the settled states of the view *)

Lemma applyUpdates_app (st : ViewState) (us vs : list Update) :
  applyUpdates st (us ++ vs) = applyUpdates (applyUpdates st us) vs.
Proof. apply fold_left_app. Qed.

Lemma applyUpdates_cons (st : ViewState) (u : Update) (us : list Update) :
  applyUpdates st (u :: us) = applyUpdates (applyUpdate st u) us.
Proof. reflexivity. Qed.

Lemma pageOnly_keeps (st : ViewState) (us : list Update) :
  pageOnly us ->
  instrumentQuery (applyUpdates st us) = instrumentQuery st
  /\ selectedInstrument (applyUpdates st us) = selectedInstrument st.
Proof.
  intros H. revert st. induction H as [|u us [p ->] _ IH]; intros st.
  - now split.
  - rewrite applyUpdates_cons.
    destruct (IH (applyUpdate st (SetInstrumentPage p))) as [-> ->].
    now split.
Qed.

Lemma pageOnly_clamp (filtered : list Instrument) (page : nat) :
  pageOnly (clampEffect filtered page).
Proof.
  unfold clampEffect, pageOnly.
  repeat match goal with
         | |- context [if ?b then _ else _] => destruct b
         end; repeat constructor; eauto.
Qed.

Lemma pageOnly_app (us vs : list Update) :
  pageOnly us -> pageOnly vs -> pageOnly (us ++ vs).
Proof. apply Forall_app_2. Qed.

Lemma selectionEffect_shape filtered page selected :
  selectionEffect filtered page selected = []
  \/ exists x, selectionEffect filtered page selected = [SetSelectedInstrument x].
Proof.
  unfold selectionEffect.
  repeat match goal with
         | |- context [if ?b then _ else _] => destruct b
         | |- context [match ?x with _ => _ end] => destruct x
         end; eauto.
Qed.

Lemma selection_only_applies (us : list Update) (st1 st2 : ViewState) :
  us = [] \/ (exists x, us = [SetSelectedInstrument x]) ->
  selectedInstrument st1 = selectedInstrument st2 ->
  instrumentQuery (applyUpdates st1 us) = instrumentQuery st1
  /\ selectedInstrument (applyUpdates st1 us) = selectedInstrument (applyUpdates st2 us).
Proof. intros [-> | [x ->]] H; simpl; now split. Qed.

(** An effect pass leaves the query alone, and leaves the selection the
    selection effect computes when that effect runs. *)
Lemma flush_query_selection (d : ProviderDetail) (prev cur : ViewState) :
  let next := applyUpdates cur (effectsOf d prev cur) in
  instrumentQuery next = instrumentQuery cur
  /\ selectedInstrument next
     = if selectionDepsChanged prev cur
       then selectedInstrument
              (resyncSelection (filteredInstruments (Some d) (instrumentQuery cur)) cur)
       else selectedInstrument cur.
Proof.
  intros next. subst next. unfold effectsOf.
  rewrite app_assoc, applyUpdates_app.
  set (pages := ((if queryChanged prev cur then queryEffect else []) ++ _)%list).
  assert (pageOnly pages) as Hp.
  { apply pageOnly_app.
    - destruct (queryChanged prev cur); repeat constructor. now exists 0.
    - destruct (_ || _); [apply pageOnly_clamp | constructor]. }
  destruct (pageOnly_keeps cur pages Hp) as [Hq Hs].
  destruct (selectionDepsChanged prev cur).
  - destruct (selection_only_applies _ (applyUpdates cur pages) cur
                (selectionEffect_shape
                   (filteredInstruments (Some d) (instrumentQuery cur))
                   (instrumentPage cur) (selectedInstrument cur)) Hs)
      as [-> ->].
    split; [exact Hq | reflexivity].
  - simpl. now split.
Qed.

Lemma view_eq (st1 st2 : ViewState) :
  instrumentQuery st1 = instrumentQuery st2 ->
  instrumentPage st1 = instrumentPage st2 ->
  selectedInstrument st1 = selectedInstrument st2 -> st1 = st2.
Proof. destruct st1, st2; simpl; congruence. Qed.

(** Two states that differ, with the same query, differ in a dependency
    of the selection effect. *)
Lemma deps_changed_of_difference (prev cur : ViewState) :
  instrumentQuery cur = instrumentQuery prev -> cur <> prev ->
  selectionDepsChanged prev cur = true.
Proof.
  intros Hq Hne. unfold selectionDepsChanged, pageChanged, selectedChanged.
  destruct (instrumentPage prev =? instrumentPage cur) eqn:P;
    [| now rewrite orb_true_r].
  destruct (bool_decide (selectedInstrument prev = selectedInstrument cur)) eqn:S;
    [| now rewrite orb_true_r].
  apply Nat.eqb_eq in P. apply bool_decide_eq_true in S.
  exfalso. apply Hne. now apply view_eq.
Qed.

(** Settling ends in a state whose selection the selection effect would
    keep, provided the effect is due on the first render or the selection
    there is already settled. *)
Lemma settle_selection (d : ProviderDetail) (fuel : nat) (prev cur st : ViewState) :
  settle fuel d prev cur = Some st ->
  selectionDepsChanged prev cur = true
  \/ SelectionSettled (filteredInstruments (Some d) (instrumentQuery cur)) cur ->
  SelectionSettled (filteredInstruments (Some d) (instrumentQuery st)) st.
Proof.
  revert prev cur. induction fuel as [|fuel IH]; intros prev cur; [discriminate |].
  cbn [settle]. destruct (flush_query_selection d prev cur) as [Hq Hs].
  destruct (bool_decide _) eqn:B.
  - apply bool_decide_eq_true in B. intros [= <-] [Hd | Hset]; [| exact Hset].
    rewrite Hd, B in Hs. unfold SelectionSettled. now rewrite <- Hs.
  - apply bool_decide_eq_false in B. intros Hsettle _.
    apply (IH _ _ Hsettle). left. now apply deps_changed_of_difference.
Qed.

Lemma resyncSelection_same_inputs (filtered : list Instrument) (st1 st2 : ViewState) :
  instrumentPage st1 = instrumentPage st2 ->
  selectedInstrument st1 = selectedInstrument st2 ->
  selectedInstrument (resyncSelection filtered st1)
  = selectedInstrument (resyncSelection filtered st2).
Proof. intros Hp Hs. rewrite !resyncSelection_value. now rewrite Hp, Hs. Qed.

Lemma filtered_blank (d : ProviderDetail) (q : string) :
  JsString.isEmpty (JsString.toLowerCase (JsString.trim q)) = true ->
  filteredInstruments (Some d) q = detail_instruments d.
Proof. intros H. unfold filteredInstruments, truthy. now rewrite H. Qed.

(** A step of the view keeps the selection settled. *)
Lemma dispatch_selection (d : ProviderDetail) (st st' : ViewState) (ev : Event) :
  SelectionSettled (filteredInstruments (Some d) (instrumentQuery st)) st ->
  dispatch d st ev = Some st' ->
  SelectionSettled (filteredInstruments (Some d) (instrumentQuery st')) st'.
Proof.
  intros Hset. unfold dispatch.
  set (cur := applyUpdate st (eventUpdate d st ev)).
  destruct (bool_decide (cur = st)) eqn:B; [now intros [= <-] |].
  apply bool_decide_eq_false in B. intros Hsettle.
  apply (settle_selection _ _ _ _ _ Hsettle).
  destruct (selectionDepsChanged st cur) eqn:D; [now left | right].
  unfold selectionDepsChanged in D.
  apply orb_false_iff in D as [D Hsel]. apply orb_false_iff in D as [Hf Hpage].
  unfold pageChanged in Hpage. unfold selectedChanged in Hsel.
  apply negb_false_iff in Hpage, Hsel.
  apply Nat.eqb_eq in Hpage. apply bool_decide_eq_true in Hsel.
  unfold filteredChanged in Hf. apply andb_false_iff in Hf as [Hf | Hf].
  - apply negb_false_iff, String.eqb_eq in Hf.
    exfalso. apply B. now apply view_eq.
  - apply negb_false_iff, andb_true_iff in Hf as [B1 B2].
    unfold SelectionSettled in *.
    rewrite (filtered_blank _ _ B2). rewrite (filtered_blank _ _ B1) in Hset.
    rewrite <- Hsel, <- Hset. now apply resyncSelection_same_inputs.
Qed.

Lemma openDetail_selection (d : ProviderDetail) (st : ViewState) :
  openDetail d = Some st ->
  SelectionSettled (filteredInstruments (Some d) (instrumentQuery st)) st.
Proof.
  unfold openDetail.
  set (filtered := filteredInstruments (Some d) "").
  set (clamp := if negb (length filtered =? 0) then clampEffect filtered 0 else []).
  rewrite !applyUpdates_app.
  change (applyUpdates initialView detailEffect) with initialView.
  assert (pageOnly clamp) as Hp.
  { subst clamp. destruct (negb _); [apply pageOnly_clamp | constructor]. }
  destruct (pageOnly_keeps initialView clamp Hp) as [Hq Hs].
  destruct (selection_only_applies _ (applyUpdates initialView clamp) initialView
              (selectionEffect_shape filtered 0 None) Hs) as [Hq' Hs'].
  rewrite Hq in Hq'.
  destruct (bool_decide _) eqn:B.
  - apply bool_decide_eq_true in B. intros [= <-].
    unfold SelectionSettled, resyncSelection.
    change (selectedInstrument
              (applyUpdates initialView (selectionEffect filtered 0 None))
            = selectedInstrument initialView).
    rewrite <- Hs'. now rewrite B.
  - apply bool_decide_eq_false in B. intros Hsettle.
    apply (settle_selection _ _ _ _ _ Hsettle). left.
    apply deps_changed_of_difference; [exact Hq' | exact B].
Qed.

(** In every state the view settles in, there is no selection exactly
    when the page shown is empty, and a selection is an element of the
    page shown. *)
Lemma reachable_selection_on_page (d : ProviderDetail) (st : ViewState) :
  Reachable d st ->
  let slice :=
    currentPageInstruments
      (pager (filteredInstruments (Some d) (instrumentQuery st)) (instrumentPage st)) in
  (selectedInstrument st = None <-> slice = [])
  /\ (forall x, selectedInstrument st = Some x -> In x slice).
Proof.
  intros R.
  assert (SelectionSettled (filteredInstruments (Some d) (instrumentQuery st)) st) as S.
  { induction R as [st H | st ev st' _ IH H].
    - now apply openDetail_selection.
    - now apply (dispatch_selection d st st' ev). }
  unfold SelectionSettled in S. rewrite resyncSelection_value in S.
  cbv zeta. destruct (currentPageInstruments _) as [|first rest].
  - split; [now split | intros x Hx; congruence].
  - destruct (selectedInstrument st) as [sel|]; [| discriminate].
    split; [split; discriminate |]. intros x [= <-].
    destruct (List.find _ _) as [m|] eqn:F.
    + injection S as <-. now apply find_some in F as [F _].
    + injection S as <-. now left.
Qed.

(** *** Settling takes at most three effect passes *)

Lemma clampEffect_zero (filtered : list Instrument) : clampEffect filtered 0 = [].
Proof.
  unfold clampEffect. destruct (length filtered =? 0); [reflexivity |].
  now destruct (Nat.max 0 _).
Qed.

(** The page the effect on the length asks for is a page it accepts. *)
Lemma clampEffect_cases (filtered : list Instrument) (page : nat) :
  clampEffect filtered page = []
  \/ exists p, clampEffect filtered page = [SetInstrumentPage p]
               /\ clampEffect filtered p = [].
Proof.
  unfold clampEffect. destruct (length filtered =? 0) eqn:E.
  - destruct (negb (page =? 0)); [right | now left]. now exists 0.
  - destruct (_ <? page) eqn:L; [right | now left].
    eexists. split; [reflexivity |]. now rewrite Nat.ltb_irrefl.
Qed.

Lemma selection_only_page (us : list Update) (st : ViewState) :
  us = [] \/ (exists x, us = [SetSelectedInstrument x]) ->
  instrumentPage (applyUpdates st us) = instrumentPage st.
Proof. now intros [-> | [x ->]]. Qed.

Lemma flush_page_split (d : ProviderDetail) (prev cur : ViewState) :
  instrumentPage (applyUpdates cur (effectsOf d prev cur))
  = instrumentPage
      (applyUpdates cur
         ((if queryChanged prev cur then queryEffect else [])
          ++ (if lengthChanged d prev cur || pageChanged prev cur
              then clampEffect (filteredInstruments (Some d) (instrumentQuery cur))
                               (instrumentPage cur)
              else []))).
Proof.
  unfold effectsOf. rewrite app_assoc, applyUpdates_app.
  apply selection_only_page. destruct (selectionDepsChanged prev cur); [| now left].
  apply selectionEffect_shape.
Qed.

(** After an effect pass the page is the one before the pass, or one
    the effect on the length accepts. *)
Lemma flush_page_range (d : ProviderDetail) (prev cur : ViewState) :
  let next := applyUpdates cur (effectsOf d prev cur) in
  instrumentPage next = instrumentPage cur
  \/ clampEffect (filteredInstruments (Some d) (instrumentQuery cur))
                 (instrumentPage next) = [].
Proof.
  intros next. subst next. rewrite flush_page_split.
  destruct (clampEffect_cases (filteredInstruments (Some d) (instrumentQuery cur))
              (instrumentPage cur)) as [E | (p & E & Hp)]; rewrite E.
  - destruct (queryChanged prev cur), (_ || _); simpl;
      first [now left | right; apply clampEffect_zero].
  - destruct (queryChanged prev cur), (_ || _); simpl;
      first [now left | right; exact Hp | right; apply clampEffect_zero].
Qed.

(** With the query as it was and a page that was not moved out of
    range, an effect pass leaves the page alone. *)
Lemma flush_page_stable (d : ProviderDetail) (prev cur : ViewState) :
  instrumentQuery cur = instrumentQuery prev ->
  instrumentPage cur = instrumentPage prev
  \/ clampEffect (filteredInstruments (Some d) (instrumentQuery cur))
                 (instrumentPage cur) = [] ->
  instrumentPage (applyUpdates cur (effectsOf d prev cur)) = instrumentPage cur.
Proof.
  intros Hq H. rewrite flush_page_split.
  unfold queryChanged, lengthChanged, pageChanged. rewrite Hq.
  rewrite String.eqb_refl, Nat.eqb_refl. cbn [negb orb app].
  destruct (instrumentPage prev =? instrumentPage cur) eqn:P; [reflexivity |].
  apply Nat.eqb_neq in P. destruct H as [H | H]; [congruence |].
  cbn [negb]. rewrite Hq in H. now rewrite H.
Qed.

(** Running the selection effect twice is running it once. *)
Lemma resyncSelection_idempotent (filtered : list Instrument) (st : ViewState) :
  SelectionSettled filtered (resyncSelection filtered st).
Proof.
  unfold SelectionSettled.
  assert (instrumentPage (resyncSelection filtered st) = instrumentPage st) as Hp.
  { unfold resyncSelection. apply selection_only_page, selectionEffect_shape. }
  rewrite (resyncSelection_value filtered (resyncSelection filtered st)), Hp.
  rewrite (resyncSelection_value filtered st).
  destruct (currentPageInstruments _) as [|first rest] eqn:E; [reflexivity |].
  assert (Hfirst : List.find (fun i => String.eqb (symbol i) (symbol first)) (first :: rest)
                   = Some first).
  { simpl. now rewrite String.eqb_refl. }
  destruct (selectedInstrument st) as [sel|].
  - destruct (List.find (fun i => String.eqb (symbol i) (symbol sel)) _) as [m|] eqn:F.
    + apply find_some in F as F'. destruct F' as [_ Hm]. apply String.eqb_eq in Hm.
      rewrite Hm. now rewrite F.
    + now rewrite Hfirst.
  - now rewrite Hfirst.
Qed.

Lemma settle_stable (d : ProviderDetail) (fuel : nat) (prev cur : ViewState) :
  applyUpdates cur (effectsOf d prev cur) = cur ->
  settle (S fuel) d prev cur = Some cur.
Proof.
  intros H. cbn [settle]. rewrite H. now rewrite bool_decide_eq_true_2.
Qed.

(** Three effect passes settle the view, whatever the two renders
    they start from. *)
Lemma settle_total (d : ProviderDetail) (fuel : nat) (prev cur : ViewState) :
  is_Some (settle (3 + fuel) d prev cur).
Proof.
  set (cur1 := applyUpdates cur (effectsOf d prev cur)).
  set (cur2 := applyUpdates cur1 (effectsOf d cur cur1)).
  destruct (flush_query_selection d prev cur) as [Hq1 _]. fold cur1 in Hq1.
  destruct (flush_query_selection d cur cur1) as [Hq2 Hs2]. fold cur2 in Hq2, Hs2.
  destruct (flush_query_selection d cur1 cur2) as [Hq3 Hs3].
  pose proof (flush_page_range d prev cur) as Hr1. cbv zeta in Hr1. fold cur1 in Hr1.
  rewrite <- Hq1 in Hr1.
  pose proof (flush_page_stable d cur cur1 Hq1 Hr1) as Hp2. fold cur2 in Hp2.
  pose proof (flush_page_stable d cur1 cur2 Hq2 (or_introl Hp2)) as Hp3.
  change (3 + fuel) with (S (S (S fuel))). cbn [settle]. fold cur1.
  destruct (bool_decide (cur1 = cur)) eqn:B1; [eauto |]. fold cur2.
  destruct (bool_decide (cur2 = cur1)) eqn:B2; [eauto |].
  apply bool_decide_eq_false in B2.
  assert (applyUpdates cur2 (effectsOf d cur1 cur2) = cur2) as Hstable.
  { apply view_eq; [exact Hq3 | exact Hp3 |]. rewrite Hs3.
    destruct (selectionDepsChanged cur1 cur2); [| reflexivity].
    destruct (selectionDepsChanged cur cur1).
    - rewrite Hq2.
      set (once := resyncSelection
                     (filteredInstruments (Some d) (instrumentQuery cur1)) cur1) in *.
      transitivity (selectedInstrument
                      (resyncSelection
                         (filteredInstruments (Some d) (instrumentQuery cur1)) once)).
      + apply resyncSelection_same_inputs; [| exact Hs2].
        rewrite Hp2. symmetry. apply selection_only_page, selectionEffect_shape.
      + rewrite Hs2. apply resyncSelection_idempotent.
    - exfalso. apply B2. now apply view_eq. }
  rewrite Hstable. rewrite bool_decide_eq_true_2 by reflexivity. eauto.
Qed.

(** Opening a detail and every step of the view end in a settled
    state. *)
Lemma dispatch_total (d : ProviderDetail) (st : ViewState) (ev : Event) :
  is_Some (dispatch d st ev).
Proof.
  unfold dispatch. destruct (bool_decide _); [eauto |]. apply (settle_total d 5).
Qed.

Lemma openDetail_total (d : ProviderDetail) : is_Some (openDetail d).
Proof.
  unfold openDetail. destruct (bool_decide _); [eauto |]. apply (settle_total d 5).
Qed.



(** ** The page after a change of the query *)

Lemma settle_page (d : ProviderDetail) (fuel : nat) (prev cur st : ViewState) :
  instrumentQuery cur = instrumentQuery prev ->
  instrumentPage cur = instrumentPage prev
  \/ clampEffect (filteredInstruments (Some d) (instrumentQuery cur))
                 (instrumentPage cur) = [] ->
  settle fuel d prev cur = Some st ->
  instrumentQuery st = instrumentQuery cur /\ instrumentPage st = instrumentPage cur.
Proof.
  revert prev cur. induction fuel as [|fuel IH]; intros prev cur Hq Hr; [discriminate |].
  cbn [settle]. destruct (bool_decide _); [now intros [= <-] |].
  intros H. destruct (flush_query_selection d prev cur) as [Hq' _].
  pose proof (flush_page_stable d prev cur Hq Hr) as Hp.
  destruct (IH _ _ Hq' (or_introl Hp) H) as [-> ->]. now split.
Qed.

(** Editing the query leaves the stored page at 0, unless the number of
    filtered instruments changed and the page stored before lies beyond
    the new last page: then the stored page is the new last page. *)
Lemma queryInput_page (d : ProviderDetail) (st st' : ViewState) (q : string) :
  q <> instrumentQuery st ->
  dispatch d st (QueryInput q) = Some st' ->
  let before := length (filteredInstruments (Some d) (instrumentQuery st)) in
  let after := length (filteredInstruments (Some d) q) in
  let maxPage := Math_ceil_div after INSTRUMENTS_PAGE_SIZE - 1 in
  instrumentQuery st' = q
  /\ (after = before \/ after = 0 \/ instrumentPage st <= maxPage ->
      instrumentPage st' = 0)
  /\ (after <> before -> after <> 0 -> maxPage < instrumentPage st ->
      instrumentPage st' = maxPage).
Proof.
  intros Hne. unfold dispatch. cbn [eventUpdate].
  set (cur := applyUpdate st (SetInstrumentQuery q)).
  assert (cur <> st) as Hcur by (intros E; apply Hne; now rewrite <- E).
  rewrite bool_decide_eq_false_2 by exact Hcur.
  intros Hsettle.
  set (before := length (filteredInstruments (Some d) (instrumentQuery st))).
  set (after := length (filteredInstruments (Some d) q)).
  set (maxPage := Math_ceil_div after INSTRUMENTS_PAGE_SIZE - 1).
  set (next := applyUpdates cur (effectsOf d st cur)).
  assert (instrumentQuery st' = q /\ instrumentPage st' = instrumentPage next) as [Hq Hp].
  { change (settle 8 d st cur)
      with (if bool_decide (next = cur) then Some cur else settle 7 d cur next)
      in Hsettle.
    destruct (flush_query_selection d st cur) as [Hq' _]. fold next in Hq'.
    destruct (bool_decide (next = cur)) eqn:B.
    - apply bool_decide_eq_true in B. injection Hsettle as <-. now rewrite B.
    - pose proof (flush_page_range d st cur) as Hr. cbv zeta in Hr. fold next in Hr.
      rewrite <- Hq' in Hr.
      destruct (settle_page _ _ _ _ _ Hq' Hr Hsettle) as [-> ->]. now split. }
  split; [exact Hq |]. rewrite Hp. subst next. rewrite flush_page_split.
  assert (queryChanged st cur = true) as ->.
  { unfold queryChanged. apply negb_true_iff, String.eqb_neq. simpl. congruence. }
  assert (pageChanged st cur = false) as ->.
  { unfold pageChanged. simpl. now rewrite Nat.eqb_refl. }
  unfold lengthChanged, clampEffect. cbn [cur applyUpdate instrumentQuery instrumentPage].
  fold before after. rewrite orb_false_r. cbn [Nat.max]. fold maxPage.
  destruct (before =? after) eqn:L; [apply Nat.eqb_eq in L | apply Nat.eqb_neq in L];
    cbn [negb].
  - split; [reflexivity | intros; congruence].
  - destruct (after =? 0) eqn:Z; [apply Nat.eqb_eq in Z | apply Nat.eqb_neq in Z].
    + split; [| intros; congruence]. intros _. now destruct (negb _).
    + destruct (maxPage <? instrumentPage st) eqn:M;
        [apply Nat.ltb_lt in M | apply Nat.ltb_ge in M].
      * split; [| reflexivity]. intros [H | [H | H]]; [congruence | congruence | lia].
      * split; [reflexivity |]. intros; lia.
Qed.

(** C9 does not hold of the effects. On the third page of 250
    instruments, typing the query [a], which 130 instruments match, runs the
    effect on the query, which asks for page 0, and then the effect on
    the length, which still sees page 2 and asks for the new last page 1;
    the later call wins, and the view settles on page 1 of the new
    query, although the claim and the effect on the query ask for page
    0. *)
Theorem query_change_keeps_clamped_page :
  let aaa i := instrument ("AAA-" ++ pretty i) (Some "AAA") (Some "USDT") in
  let bbb i := instrument ("BBB-" ++ pretty i) (Some "BBB") (Some "USDT") in
  let view q page sel :=
    {| instrumentQuery := q; instrumentPage := page;
       selectedInstrument := Some sel |} in
  let st0 := view "" 0 (aaa 0) in
  let st1 := view "" 1 (aaa 120) in
  let st2 := view "" 2 (bbb 110) in
  let st3 := view "a" 1 (aaa 120) in
  openDetail bigDetail = Some st0
  /\ dispatch bigDetail st0 NextClick = Some st1
  /\ dispatch bigDetail st1 NextClick = Some st2
  /\ firstn 2 (effectsOf bigDetail st2 (applyUpdate st2 (SetInstrumentQuery "a")))
     = [SetInstrumentPage 0; SetInstrumentPage 1]
  /\ dispatch bigDetail st2 (QueryInput "a") = Some st3
  /\ length (filteredInstruments (Some bigDetail) "a") = 130
  /\ instrumentPage st3 = 1.
Proof.
  repeat split; vm_compute; reflexivity.
Qed.

(** * Further properties *)

(** ** Trimming and lower-casing *)

Lemma trimStart_blank (s : string) :
  JsString.trimStart s = "" <-> allWhiteSpace s = true.
Proof.
  induction s as [|c s IH]; simpl; [tauto |].
  destruct (JsString.isWhiteSpace c); simpl; [exact IH | split; discriminate].
Qed.

Lemma trimEnd_blank (s : string) :
  JsString.trimEnd s = "" <-> allWhiteSpace s = true.
Proof.
  induction s as [|c s IH]; simpl; [tauto |].
  destruct (JsString.isWhiteSpace c); simpl.
  - destruct (JsString.trimEnd s) eqn:E; simpl.
    + split; [intros _; now apply IH | reflexivity].
    + split; [discriminate |]. intros H. apply IH in H. discriminate.
  - split; discriminate.
Qed.

Lemma allWhiteSpace_trimStart (s : string) :
  allWhiteSpace (JsString.trimStart s) = allWhiteSpace s.
Proof.
  induction s as [|c s IH]; simpl; [reflexivity |].
  destruct (JsString.isWhiteSpace c) eqn:E; simpl; [exact IH | now rewrite E].
Qed.

(** A text is blank after trimming exactly when it holds nothing but
    white space. *)
Lemma trim_blank (s : string) : JsString.trim s = "" <-> allWhiteSpace s = true.
Proof.
  unfold JsString.trim. now rewrite trimEnd_blank, allWhiteSpace_trimStart.
Qed.

Lemma trimEnd_idempotent (s : string) :
  JsString.trimEnd (JsString.trimEnd s) = JsString.trimEnd s.
Proof.
  induction s as [|c s IH]; [reflexivity |].
  cbn [JsString.trimEnd].
  destruct (JsString.isWhiteSpace c && JsString.isEmpty (JsString.trimEnd s)) eqn:E;
    [reflexivity |].
  cbn [JsString.trimEnd]. now rewrite IH, E.
Qed.

Lemma trim_idempotent (s : string) : JsString.trim (JsString.trim s) = JsString.trim s.
Proof.
  unfold JsString.trim at 1. rewrite trimStart_trim.
  unfold JsString.trim. apply trimEnd_idempotent.
Qed.

Lemma lowerChar_idempotent (c : ascii) :
  JsString.lowerChar (JsString.lowerChar c) = JsString.lowerChar c.
Proof. destruct c as [[] [] [] [] [] [] [] []]; reflexivity. Qed.

Lemma lowerChar_space (c : ascii) :
  JsString.isWhiteSpace (JsString.lowerChar c) = JsString.isWhiteSpace c.
Proof. destruct c as [[] [] [] [] [] [] [] []]; reflexivity. Qed.

Lemma toLowerCase_idempotent (s : string) :
  JsString.toLowerCase (JsString.toLowerCase s) = JsString.toLowerCase s.
Proof.
  induction s as [|c s IH]; simpl; [reflexivity |].
  now rewrite lowerChar_idempotent, IH.
Qed.

Lemma trimStart_lower (s : string) :
  JsString.trimStart (JsString.toLowerCase s)
  = JsString.toLowerCase (JsString.trimStart s).
Proof.
  induction s as [|c s IH]; simpl; [reflexivity |].
  rewrite lowerChar_space. now destruct (JsString.isWhiteSpace c).
Qed.

Lemma isEmpty_lower (s : string) :
  JsString.isEmpty (JsString.toLowerCase s) = JsString.isEmpty s.
Proof. now destruct s. Qed.

Lemma trimEnd_lower (s : string) :
  JsString.trimEnd (JsString.toLowerCase s)
  = JsString.toLowerCase (JsString.trimEnd s).
Proof.
  induction s as [|c s IH]; [reflexivity |].
  cbn [JsString.toLowerCase JsString.trimEnd].
  rewrite lowerChar_space, IH, isEmpty_lower.
  now destruct (JsString.isWhiteSpace c && JsString.isEmpty (JsString.trimEnd s)).
Qed.

Lemma trim_lower (s : string) :
  JsString.trim (JsString.toLowerCase s) = JsString.toLowerCase (JsString.trim s).
Proof. unfold JsString.trim. now rewrite trimStart_lower, trimEnd_lower. Qed.

(** Trimming and lower-casing a text that was trimmed and lower-cased
    changes nothing. *)
Lemma normalise_idempotent (s : string) :
  JsString.toLowerCase (JsString.trim (JsString.toLowerCase (JsString.trim s)))
  = JsString.toLowerCase (JsString.trim s).
Proof. now rewrite trim_lower, trim_idempotent, toLowerCase_idempotent. Qed.

Lemma Array_includes_In (items : list string) (x : string) :
  Array_includes items x = true <-> In x items.
Proof.
  unfold Array_includes. rewrite existsb_exists. split.
  - intros (y & Hy & E). apply String.eqb_eq in E. now subst.
  - intros H. exists x. split; [exact H | apply String.eqb_refl].
Qed.

(** ** The number, boolean and text branches of [parseConfigValue] *)


Lemma parseConfigValue_boolean_branch (setting : SettingsSchema) (raw : string) :
  isBooleanTag setting ->
  parseConfigValue setting raw =
    let normalized := JsString.toLowerCase (JsString.trim raw) in
    if Array_includes ["true"; "1"; "yes"; "on"] normalized
    then parsedValue (VBoolean true)
    else if Array_includes ["false"; "0"; "no"; "off"] normalized
    then parsedValue (VBoolean false)
    else parseFailure (setting_name setting ++ " must be a boolean").
Proof.
  intros [H | H]; unfold parseConfigValue; now rewrite H.
Qed.

Lemma parseConfigValue_text_branch (setting : SettingsSchema) (raw : string) :
  isTextTag setting -> parseConfigValue setting raw = parsedValue (VString raw).
Proof.
  intros H. unfold isTextTag in H. unfold parseConfigValue.
  destruct (Array_includes ["int"; "integer"] _) eqn:E1.
  { apply Array_includes_In in E1. exfalso. apply H. simpl in *. tauto. }
  destruct (Array_includes ["float"; "double"; "number"] _) eqn:E2.
  { apply Array_includes_In in E2. exfalso. apply H. simpl in *. tauto. }
  destruct (Array_includes ["bool"; "boolean"] _) eqn:E3.
  { apply Array_includes_In in E3. exfalso. apply H. simpl in *. tauto. }
  reflexivity.
Qed.












(** X2. For a field tagged [bool] or [boolean] in any letter case, the
    result depends only on the trimmed, lower-cased text: [true], [1],
    [yes], [on] give true; [false], [0], [no], [off] give false; every
    other text gives the boolean error of the field. Coercing the
    trimmed, lower-cased text gives what coercing the text gives. *)
Theorem parseConfigValue_boolean (setting : SettingsSchema) (raw : string) :
  isBooleanTag setting ->
  let normalized := JsString.toLowerCase (JsString.trim raw) in
  (In normalized ["true"; "1"; "yes"; "on"] ->
   parseConfigValue setting raw = parsedValue (VBoolean true))
  /\ (In normalized ["false"; "0"; "no"; "off"] ->
      parseConfigValue setting raw = parsedValue (VBoolean false))
  /\ (~ In normalized ["true"; "1"; "yes"; "on"; "false"; "0"; "no"; "off"] ->
      parseConfigValue setting raw
      = parseFailure (setting_name setting ++ " must be a boolean"))
  /\ parseConfigValue setting normalized = parseConfigValue setting raw.
Proof.
  intros Htag normalized. rewrite !(parseConfigValue_boolean_branch _ _ Htag).
  cbv zeta. subst normalized. rewrite normalise_idempotent.
  set (n := JsString.toLowerCase (JsString.trim raw)).
  split; [| split; [| split]]; [| | | reflexivity].
  - intros H. apply Array_includes_In in H. now rewrite H.
  - intros H.
    destruct (Array_includes ["true"; "1"; "yes"; "on"] n) eqn:T.
    + apply Array_includes_In in T. exfalso. simpl in H, T.
      repeat match goal with H : _ \/ _ |- _ => destruct H end;
        try contradiction; congruence.
    + apply Array_includes_In in H. now rewrite H.
  - intros H.
    destruct (Array_includes ["true"; "1"; "yes"; "on"] n) eqn:T.
    { apply Array_includes_In in T. exfalso. apply H. simpl in *. tauto. }
    destruct (Array_includes ["false"; "0"; "no"; "off"] n) eqn:F.
    { apply Array_includes_In in F. exfalso. apply H. simpl in *. tauto. }
    reflexivity.
Qed.

Lemma parseConfigValue_boolean_witness :
  parseConfigValue verboseSetting "  YES " = parsedValue (VBoolean true)
  /\ parseConfigValue verboseSetting "maybe"
     = parseFailure "verbose must be a boolean".
Proof.
  destruct (parseConfigValue_boolean verboseSetting "  YES ") as (H & _);
    [left; reflexivity |].
  destruct (parseConfigValue_boolean verboseSetting "maybe") as (_ & _ & K & _);
    [left; reflexivity |].
  split.
  - apply H. simpl. tauto.
  - apply K. simpl. intros E.
    repeat match goal with H : _ \/ _ |- _ => destruct H end;
      try contradiction; discriminate.
Defined.

(** ** More on collecting the payload *)

Lemma passes_skip configValues setting :
  Blank configValues setting -> setting_required setting = false ->
  Passes configValues setting.
Proof.
  intros B R e [(_ & R' & _) | (NB & _)]; [congruence | contradiction].
Qed.

Lemma passes_coerced configValues setting v :
  Coerced configValues setting v -> Passes configValues setting.
Proof.
  intros [NB Hv] e [(B & _) | (_ & He)]; [contradiction |].
  rewrite Hv in He. discriminate.
Qed.

(** An error of the loop comes from a first failing field and leaves
    an empty payload. *)
Lemma collectLoop_error_source configValues schema config e :
  collect_error (collectLoop schema configValues config) = Some e ->
  collect_config (collectLoop schema configValues config) = ∅
  /\ exists pre setting post,
       schema = (pre ++ setting :: post)%list
       /\ Forall (Passes configValues) pre
       /\ FieldFails configValues setting e.
Proof.
  revert config. induction schema as [|p schema IH]; intros config H.
  - discriminate.
  - destruct (field_cases configValues p) as [[B R] | [[v Hv] | [e' Hf]]].
    + rewrite collectLoop_skip in * by assumption.
      destruct (IH _ H) as (Hc & pre & s & post & -> & Hpre & Hs).
      split; [exact Hc |]. exists (p :: pre), s, post.
      split_conj; [reflexivity | | exact Hs].
      constructor; [now apply passes_skip | exact Hpre].
    + rewrite (collectLoop_store _ _ _ _ v) in * by assumption.
      destruct (IH _ H) as (Hc & pre & s & post & -> & Hpre & Hs).
      split; [exact Hc |]. exists (p :: pre), s, post.
      split_conj; [reflexivity | | exact Hs].
      constructor; [now apply (passes_coerced _ _ v) | exact Hpre].
    + rewrite (collectLoop_stop _ _ _ _ e') in * by assumption.
      injection H as <-. split; [reflexivity |].
      exists [], p, schema. split_conj; [reflexivity | constructor | exact Hf].
Qed.

Lemma collect_no_error_passes
    (metadata : AdapterMetadata) (configValues : gmap string string) :
  collect_error (collectConfigPayload metadata configValues) = None ->
  Forall (Passes configValues) (adapter_settingsSchema metadata).
Proof.
  unfold collectConfigPayload. intros H.
  apply Forall_forall. intros s Hs e Hf.
  apply list_elem_of_In, in_split in Hs as (pre & post & E).
  assert (exists e', collect_error
            (collectLoop (adapter_settingsSchema metadata) configValues ∅) = Some e')
    as [e' He']; [| congruence].
  rewrite E. clear E H. generalize (∅ : gmap string JSValue).
  induction pre as [|p pre IH]; intros config.
  - rewrite app_nil_l, (collectLoop_stop _ _ _ _ e) by exact Hf. eauto.
  - rewrite <- app_comm_cons.
    destruct (field_cases configValues p) as [[B R] | [[v Hv] | [e' Hf']]].
    + rewrite collectLoop_skip by assumption. apply IH.
    + rewrite (collectLoop_store _ _ _ _ v) by assumption. apply IH.
    + rewrite (collectLoop_stop _ _ _ _ e') by assumption. eauto.
Qed.

(** X3. The collection reports an error exactly when some field fails.
    Every error it reports is that of the first failing field, and then
    the payload is empty: no field collected before the failure is
    kept. *)
Theorem collectConfigPayload_error_source
    (metadata : AdapterMetadata) (configValues : gmap string string) :
  let schema := adapter_settingsSchema metadata in
  let result := collectConfigPayload metadata configValues in
  (collect_error result = None <-> Forall (Passes configValues) schema)
  /\ (forall e, collect_error result = Some e ->
        collect_config result = ∅
        /\ exists pre setting post,
             schema = (pre ++ setting :: post)%list
             /\ Forall (Passes configValues) pre
             /\ FieldFails configValues setting e).
Proof.
  intros schema result. subst schema result. split.
  - split; [apply collect_no_error_passes |].
    unfold collectConfigPayload. apply collectLoop_no_error.
  - intros e. unfold collectConfigPayload. apply collectLoop_error_source.
Qed.

Lemma collectConfigPayload_error_source_witness :
  collect_config (collectConfigPayload twoFieldAdapter twoFieldValues) = ∅.
Proof.
  destruct (collectConfigPayload_error_source twoFieldAdapter twoFieldValues)
    as [_ H].
  destruct (H "a is required") as [E _]; [reflexivity | exact E].
Defined.

Lemma collectLoop_ext (schema : list SettingsSchema)
    (values1 values2 : gmap string string) (config : gmap string JSValue) :
  (forall setting, In setting schema ->
     values1 !! setting_name setting = values2 !! setting_name setting) ->
  collectLoop schema values1 config = collectLoop schema values2 config.
Proof.
  revert config. induction schema as [|p schema IH]; intros config H;
    [reflexivity |].
  cbn [collectLoop]. rewrite (H p) by now left.
  assert (forall c, collectLoop schema values1 c = collectLoop schema values2 c) as E.
  { intros c. apply IH. intros s Hs. apply H. now right. }
  now rewrite !E.
Qed.

(** X4. The collection reads the values under the names of the schema
    and nothing else: two value maps that agree on those names give the
    same result, so setting a value under a name that is no field of the
    adapter changes neither the payload nor the error. *)
Theorem collectConfigPayload_reads_schema_names
    (metadata : AdapterMetadata) (values1 values2 : gmap string string) :
  (forall setting, In setting (adapter_settingsSchema metadata) ->
     values1 !! setting_name setting = values2 !! setting_name setting) ->
  collectConfigPayload metadata values1 = collectConfigPayload metadata values2.
Proof. intros H. unfold collectConfigPayload. now apply collectLoop_ext. Qed.

Lemma collectConfigPayload_reads_schema_names_witness :
  collectConfigPayload krakenAdapter
    (form_configValues (handleConfigChange "port" "99" filledForm))
  = collectConfigPayload krakenAdapter (form_configValues filledForm).
Proof.
  apply collectConfigPayload_reads_schema_names.
  intros setting [<- | []]. reflexivity.
Defined.

(** ** From the built values to the payload *)

Lemma collect_lookup_distinct (metadata : AdapterMetadata)
    (configValues : gmap string string) (k : string) (v : JSValue) :
  Forall (Passes configValues) (adapter_settingsSchema metadata) ->
  NoDup (map setting_name (adapter_settingsSchema metadata)) ->
  collect_config (collectConfigPayload metadata configValues) !! k = Some v
  <-> exists setting,
        In setting (adapter_settingsSchema metadata)
        /\ setting_name setting = k /\ Coerced configValues setting v.
Proof.
  intros Hall ND. unfold collectConfigPayload.
  rewrite collectLoop_lookup by exact Hall.
  rewrite <- (lastCoerced_unique_names _ _ _ _ ND). split.
  - intros [H | [H _]]; [exact H |]. rewrite lookup_empty in H. discriminate.
  - intros H. now left.
Qed.

Lemma allWhiteSpace_false_trim (s : string) :
  allWhiteSpace s = false -> JsString.trim s <> "".
Proof. intros H E. apply trim_blank in E. congruence. Qed.

Section BuiltToPayload.

Context {builtins : Builtins}.

Lemma build_lookup_distinct (metadata : AdapterMetadata)
    (existing : option (gmap string JSValue)) (setting : SettingsSchema) :
  NoDup (map setting_name (adapter_settingsSchema metadata)) ->
  In setting (adapter_settingsSchema metadata) ->
  buildConfigValues (Some metadata) existing !! setting_name setting
  = Some (configCell existing setting).
Proof.
  intros ND Hin. apply in_split in Hin as (pre & post & E).
  unfold buildConfigValues. rewrite E. apply buildLoop_last. rewrite E in ND.
  now apply names_after_distinct in ND.
Qed.

(** X5. Right after an adapter was chosen, the values are the
    defaults. If the adapter found has distinct field names and a
    required field without a default, submitting at once sends no request:
    the collection of the fresh values reports an error. *)
Theorem fresh_form_required_field_blocks
    (formMode : FormMode) (adapters : list AdapterMetadata) (identifier : string)
    (prev : FormState) (metadata : AdapterMetadata) (setting : SettingsSchema) :
  List.find (fun a => String.eqb (adapter_identifier a) identifier) adapters
  = Some metadata ->
  NoDup (map setting_name (adapter_settingsSchema metadata)) ->
  In setting (adapter_settingsSchema metadata) ->
  setting_required setting = true ->
  isNullish (setting_default setting) = true ->
  let form := handleAdapterChange adapters identifier prev in
  is_Some (collect_error (collectConfigPayload metadata (form_configValues form)))
  /\ requests (handleFormSubmit formMode adapters form) = [].
Proof.
  intros Hfind ND Hin Hreq Hdef form.
  assert (Hvalues : form_configValues form = buildConfigValues (Some metadata) None).
  { subst form. unfold handleAdapterChange. cbn [form_configValues]. now rewrite Hfind. }
  assert (Herr : is_Some (collect_error
                            (collectConfigPayload metadata (form_configValues form)))).
  { destruct (collect_error _) as [e|] eqn:E; [eauto |]. exfalso.
    apply collect_no_error_passes in E.
    rewrite Forall_forall in E. apply list_elem_of_In in Hin.
    apply (E setting Hin (setting_name setting ++ " is required")).
    left. split; [| now split]. unfold Blank, rawValueOf. rewrite Hvalues.
    rewrite build_lookup_distinct by (try apply list_elem_of_In; assumption).
    unfold configCell. now rewrite Hdef. }
  split; [exact Herr |].
  unfold handleFormSubmit, selectedAdapter.
  change (form_adapter form) with identifier. rewrite Hfind.
  destruct (negb (truthy _)); [reflexivity |].
  rewrite errorSet_collect. destruct Herr as [e ->]. reflexivity.
Qed.

(** X6. Opening a provider for editing and collecting the payload
    without touching the form gives back the stored booleans and texts:
    with distinct field names and no failing field, a boolean field whose
    stored value is a boolean is collected as that boolean, and a text
    field whose stored value is a string that is not blank is collected
    as that string, white space around it included. *)
Theorem edit_keeps_booleans_and_texts (detailResponse : ProviderDetail)
    (setting : SettingsSchema) :
  let metadata := detail_adapter detailResponse in
  let form := editFormState detailResponse in
  let result := collectConfigPayload metadata (form_configValues form) in
  NoDup (map setting_name (adapter_settingsSchema metadata)) ->
  Forall (Passes (form_configValues form)) (adapter_settingsSchema metadata) ->
  In setting (adapter_settingsSchema metadata) ->
  (isBooleanTag setting ->
   forall b, detail_settings detailResponse !! setting_name setting = Some (VBoolean b) ->
     collect_config result !! setting_name setting = Some (VBoolean b))
  /\ (isTextTag setting ->
      forall s, detail_settings detailResponse !! setting_name setting = Some (VString s) ->
        allWhiteSpace s = false ->
        collect_config result !! setting_name setting = Some (VString s)).
Proof.
  intros metadata form result ND Hall Hin. subst result.
  assert (Hraw : forall v,
    detail_settings detailResponse !! setting_name setting = Some v ->
    rawValueOf (form_configValues form) setting = valueToString v).
  { intros v Hv. unfold rawValueOf. subst form. cbn [editFormState form_configValues].
    rewrite build_lookup_distinct by assumption.
    unfold configCell. now rewrite Hv. }
  split.
  - intros Htag b Hb. apply collect_lookup_distinct; [assumption | assumption |].
    exists setting. split; [exact Hin |]. split; [reflexivity |].
    unfold Coerced, Blank. rewrite (Hraw _ Hb).
    rewrite (parseConfigValue_boolean_branch _ _ Htag).
    destruct b; split; (discriminate || reflexivity).
  - intros Htag s Hs Hws. apply collect_lookup_distinct; [assumption | assumption |].
    exists setting. split; [exact Hin |]. split; [reflexivity |].
    unfold Coerced, Blank. rewrite (Hraw _ Hs).
    change (valueToString (VString s)) with s.
    split; [now apply allWhiteSpace_false_trim |].
    now apply parseConfigValue_text_branch.
Qed.

End BuiltToPayload.

Lemma fresh_form_required_field_blocks_witness :
  requests
    (handleFormSubmit Create [sampleAdapter; krakenAdapter]
       (handleAdapterChange (builtins := constBuiltins)
          [sampleAdapter; krakenAdapter] "binance" filledForm)) = [].
Proof.
  apply (fresh_form_required_field_blocks (builtins := constBuiltins)
           Create [sampleAdapter; krakenAdapter] "binance" filledForm
           sampleAdapter portSetting).
  - reflexivity.
  - repeat constructor; simpl; intros H;
      repeat match goal with H : _ \/ _ |- _ => destruct H end;
      try contradiction; try discriminate;
      rewrite ?list_elem_of_In in *; simpl in *; intuition discriminate.
  - now left.
  - reflexivity.
  - reflexivity.
Defined.

Lemma edit_keeps_booleans_and_texts_witness :
  collect_config
    (collectConfigPayload sampleAdapter
       (form_configValues (editFormState (builtins := constBuiltins) storedDetail)))
    !! "label" = Some (VString " spot ").
Proof.
  destruct (edit_keeps_booleans_and_texts (builtins := constBuiltins)
              storedDetail labelSetting) as [_ H].
  - repeat constructor; simpl; intros H;
      rewrite ?list_elem_of_In in *; simpl in *; intuition discriminate.
  - repeat constructor; intros e [(B & _) | (_ & E)];
      (discriminate B || discriminate E).
  - right. now left.
  - apply (H ltac:(unfold isTextTag; simpl; intuition discriminate) " spot ");
      reflexivity.
Defined.

(** ** The adapter index and the adapter of the form *)

Lemma find_append {A : Type} (f : A -> bool) (l k : list A) :
  List.find f (l ++ k)
  = match List.find f l with Some x => Some x | None => List.find f k end.
Proof.
  induction l as [|x l IH]; [reflexivity |]. simpl. now destruct (f x).
Qed.

Lemma adapterIndex_fold (adapters : list AdapterMetadata)
    (index : gmap string AdapterMetadata) (identifier : string) :
  fold_left (fun map adapter => <[adapter_identifier adapter := adapter]> map)
            adapters index !! identifier
  = match List.find (fun a => String.eqb (adapter_identifier a) identifier)
                    (rev adapters) with
    | Some a => Some a
    | None => index !! identifier
    end.
Proof.
  revert index. induction adapters as [|a adapters IH]; intros index; [reflexivity |].
  cbn [fold_left rev]. rewrite IH, find_append.
  destruct (List.find _ (rev adapters)); [reflexivity |]. cbn [List.find].
  destruct (String.eqb (adapter_identifier a) identifier) eqn:E.
  - apply String.eqb_eq in E. subst identifier. apply lookup_insert_eq.
  - apply String.eqb_neq in E. now apply lookup_insert_ne.
Qed.

Lemma find_rev_distinct (adapters : list AdapterMetadata) (identifier : string) :
  NoDup (map adapter_identifier adapters) ->
  List.find (fun a => String.eqb (adapter_identifier a) identifier) (rev adapters)
  = List.find (fun a => String.eqb (adapter_identifier a) identifier) adapters.
Proof.
  induction adapters as [|a adapters IH]; intros ND; [reflexivity |].
  cbn [map] in ND. apply NoDup_cons in ND as [Hnot ND].
  cbn [rev]. rewrite find_append, (IH ND). cbn [List.find].
  destruct (String.eqb (adapter_identifier a) identifier) eqn:E;
    [| now destruct (List.find _ adapters)].
  destruct (List.find _ adapters) as [b|] eqn:F; [| reflexivity].
  apply find_some in F as [Hin Hb]. apply String.eqb_eq in E, Hb.
  exfalso. apply Hnot. rewrite E, <- Hb.
  apply list_elem_of_In, in_map, Hin.
Qed.

(** X7. The index the provider cards look adapters up in holds, for
    each identifier, the last adapter of the list with that identifier,
    while the form takes the first. With distinct identifiers the two
    agree: the index returns for the adapter chosen in the form exactly
    the adapter the form works with. *)
Theorem adapterByIdentifier_agrees (adapters : list AdapterMetadata) :
  (forall identifier,
     adapterByIdentifier adapters !! identifier
     = List.find (fun a => String.eqb (adapter_identifier a) identifier)
                 (rev adapters))
  /\ (NoDup (map adapter_identifier adapters) ->
      forall formState,
        adapterByIdentifier adapters !! form_adapter formState
        = selectedAdapter adapters formState).
Proof.
  split.
  - intros identifier. unfold adapterByIdentifier. rewrite adapterIndex_fold.
    rewrite lookup_empty. now destruct (List.find _ _).
  - intros ND formState. unfold adapterByIdentifier, selectedAdapter.
    rewrite adapterIndex_fold, lookup_empty, (find_rev_distinct _ _ ND).
    now destruct (List.find _ _).
Qed.

Lemma adapterByIdentifier_agrees_witness :
  adapterByIdentifier [sampleAdapter; krakenAdapter] !! form_adapter filledForm
  = selectedAdapter [sampleAdapter; krakenAdapter] filledForm.
Proof.
  destruct (adapterByIdentifier_agrees [sampleAdapter; krakenAdapter]) as [_ H].
  apply H. repeat constructor; rewrite ?list_elem_of_In; simpl; intuition discriminate.
Defined.

(** ** The pages of a list *)

Lemma pager_pages (filtered : list Instrument) (page : nat) :
  totalInstrumentPages (pager filtered page)
  = if length filtered =? 0 then 0
    else Math_ceil_div (length filtered) INSTRUMENTS_PAGE_SIZE.
Proof. reflexivity. Qed.

(** A page within the range is shown as it is asked for. *)
Lemma pager_in_range (filtered : list Instrument) (page : nat) :
  page < totalInstrumentPages (pager filtered 0) ->
  effectiveInstrumentPage (pager filtered page) = page
  /\ currentPageInstruments (pager filtered page)
     = take INSTRUMENTS_PAGE_SIZE (drop (page * INSTRUMENTS_PAGE_SIZE) filtered).
Proof.
  rewrite pager_pages. unfold pager.
  cbn [effectiveInstrumentPage currentPageInstruments].
  destruct (length filtered =? 0); [lia |]. intros H.
  destruct (Math_ceil_div _ _ =? 0) eqn:Z; [apply Nat.eqb_eq in Z; lia |].
  rewrite Nat.min_l by lia. split; [reflexivity |].
  unfold Array_slice. f_equal. lia.
Qed.

Lemma chunks_take {A : Type} (l : list A) (size k : nat) :
  concat (map (fun page => take size (drop (page * size) l)) (seq 0 k))
  = take (k * size) l.
Proof.
  induction k as [|k IH]; [reflexivity |].
  rewrite seq_S, map_app, concat_app, IH. simpl.
  rewrite app_nil_r, take_take_drop. f_equal. lia.
Qed.

Lemma pages_cover (n : nat) :
  n <= (if n =? 0 then 0 else Math_ceil_div n INSTRUMENTS_PAGE_SIZE)
       * INSTRUMENTS_PAGE_SIZE.
Proof.
  destruct (n =? 0) eqn:Z; [apply Nat.eqb_eq in Z; lia |].
  destruct (Math_ceil_div_ceiling n INSTRUMENTS_PAGE_SIZE) as [H _];
    [unfold INSTRUMENTS_PAGE_SIZE; lia | lia].
Qed.

(** X8. The pages of a list, concatenated in order, are the list: paging
    loses no instrument, repeats none and keeps the order. Every page
    holds between 1 and 120 instruments, and every page but the last
    holds 120. *)
Theorem allPages_partition (filtered : list Instrument) :
  concat (allPages filtered) = filtered
  /\ Forall (fun page => 1 <= length page <= 120) (allPages filtered)
  /\ (forall i page, allPages filtered !! i = Some page ->
        S i < length (allPages filtered) -> length page = 120).
Proof.
  unfold allPages. set (pages := totalInstrumentPages (pager filtered 0)).
  assert (Hmap : map (fun page => currentPageInstruments (pager filtered page))
                     (seq 0 pages)
                 = map (fun page => take INSTRUMENTS_PAGE_SIZE
                                      (drop (page * INSTRUMENTS_PAGE_SIZE) filtered))
                       (seq 0 pages)).
  { apply map_ext_in. intros page Hp. apply in_seq in Hp.
    apply pager_in_range. fold pages. lia. }
  assert (Hlast : filtered <> [] ->
                  (pages - 1) * INSTRUMENTS_PAGE_SIZE < length filtered).
  { intros NE. assert (length filtered <> 0) as Hn
      by (destruct filtered; simpl; congruence).
    subst pages. rewrite pager_pages.
    apply Nat.eqb_neq in Hn as Hn'. rewrite Hn'.
    now apply last_page_starts_inside. }
  assert (Hpages : forall i page,
    map (fun page => take INSTRUMENTS_PAGE_SIZE
                       (drop (page * INSTRUMENTS_PAGE_SIZE) filtered))
        (seq 0 pages) !! i = Some page ->
    i < pages /\ length page = Nat.min 120 (length filtered - i * 120)).
  { intros i page Hi. rewrite list_lookup_fmap in Hi.
    destruct (seq 0 pages !! i) as [j|] eqn:Hj; [| discriminate].
    apply lookup_seq in Hj as [-> Hlt]. injection Hi as <-.
    split; [exact Hlt |]. rewrite length_take, length_drop. reflexivity. }
  rewrite Hmap. split; [| split].
  - rewrite chunks_take. apply take_ge. subst pages. rewrite pager_pages.
    apply pages_cover.
  - apply Forall_lookup. intros i page Hi. destruct (Hpages i page Hi) as [Hlt ->].
    assert (filtered <> []) as NE.
    { intros ->. subst pages. simpl in Hlt. lia. }
    specialize (Hlast NE). unfold INSTRUMENTS_PAGE_SIZE in *. nia.
  - intros i page Hi Hnext. destruct (Hpages i page Hi) as [Hlt ->].
    rewrite length_map, length_seq in Hnext.
    assert (filtered <> []) as NE.
    { intros ->. subst pages. simpl in Hlt. lia. }
    specialize (Hlast NE). unfold INSTRUMENTS_PAGE_SIZE in *. nia.
Qed.

Lemma allPages_partition_witness :
  length (concat (allPages (numbered "AAA" 250))) = 250.
Proof.
  destruct (allPages_partition (numbered "AAA" 250)) as [H _].
  rewrite H. vm_compute. reflexivity.
Defined.

Lemma effective_page_lt (filtered : list Instrument) (requested : nat) :
  filtered <> [] ->
  effectiveInstrumentPage (pager filtered requested)
  < totalInstrumentPages (pager filtered requested).
Proof.
  intros NE.
  assert (length filtered <> 0) as Hn by (destruct filtered; simpl; congruence).
  pose proof (pages_positive _ Hn) as P.
  unfold pager. cbn [totalInstrumentPages effectiveInstrumentPage].
  apply Nat.eqb_neq in Hn as Hn', P as P'. rewrite Hn', P'. lia.
Qed.

(** X9. For a list that is not empty and any requested page, the label
    "Showing a-b of n" is consistent: [1 <= a <= b <= n], the page holds
    [b - a + 1] instruments, at most 120, [a] is one more than 120 times
    the number of the page shown, [b] is the end of a full page on every
    page but the last, and on the last page [b = n]. *)
Theorem pager_display_bounds (filtered : list Instrument) (requested : nat) :
  filtered <> [] ->
  let p := pager filtered requested in
  1 <= pageDisplayStart p <= pageDisplayEnd p
  /\ pageDisplayEnd p <= totalInstrumentCount p
  /\ totalInstrumentCount p = length filtered
  /\ length (currentPageInstruments p) = pageDisplayEnd p - pageDisplayStart p + 1
  /\ length (currentPageInstruments p) <= 120
  /\ pageDisplayStart p = effectiveInstrumentPage p * 120 + 1
  /\ effectiveInstrumentPage p < totalInstrumentPages p
  /\ (S (effectiveInstrumentPage p) = totalInstrumentPages p ->
      pageDisplayEnd p = totalInstrumentCount p)
  /\ (S (effectiveInstrumentPage p) < totalInstrumentPages p ->
      pageDisplayEnd p = (effectiveInstrumentPage p + 1) * 120).
Proof.
  intros NE p. subst p.
  assert (length filtered <> 0) as Hn by (destruct filtered; simpl; congruence).
  pose proof (pages_positive _ Hn) as P.
  pose proof (last_page_starts_inside _ Hn) as L.
  destruct (Math_ceil_div_ceiling (length filtered) INSTRUMENTS_PAGE_SIZE) as [C _];
    [unfold INSTRUMENTS_PAGE_SIZE; lia |].
  unfold pager. cbn [totalInstrumentCount totalInstrumentPages effectiveInstrumentPage
    currentPageInstruments pageDisplayStart pageDisplayEnd].
  apply Nat.eqb_neq in Hn as Hn', P as P'. rewrite Hn', P'.
  rewrite Array_slice_length. unfold INSTRUMENTS_PAGE_SIZE in *.
  set (pages := Math_ceil_div (length filtered) 120) in *.
  assert (Nat.min requested (pages - 1) <= pages - 1) by lia.
  split_conj; try lia; try nia.
Qed.

Lemma pager_display_bounds_witness :
  pageDisplayEnd (pager (numbered "AAA" 250) 7) = 250.
Proof.
  destruct (pager_display_bounds (numbered "AAA" 250) 7)
    as (_ & _ & Hc & _ & _ & _ & _ & Hlast & _); [discriminate |].
  rewrite Hlast; [vm_compute; reflexivity | vm_compute; reflexivity].
Defined.

(** ** Narrowing the filter *)

Lemma substring_trans (a b c : string) :
  Substring a b -> Substring b c -> Substring a c.
Proof.
  intros (p1 & s1 & ->) (p2 & s2 & ->).
  exists (p2 ++ p1), (s1 ++ s2). now rewrite !append_assoc.
Qed.

Lemma substring_of_empty (q : string) : Substring q "" -> q = "".
Proof.
  intros (pre & post & H). destruct pre; [| discriminate].
  rewrite append_empty_l in H. destruct q; [reflexivity | discriminate].
Qed.

Lemma includes_substring (s q1 q2 : string) :
  Substring q1 q2 -> JsString.includes s q2 = true -> JsString.includes s q1 = true.
Proof.
  intros H. rewrite !includes_spec. intros H2.
  apply (substring_trans q1 q2 s H H2).
Qed.

Lemma instrumentMatches_substring (q1 q2 : string) (i : Instrument) :
  Substring q1 q2 -> instrumentMatches q2 i = true -> instrumentMatches q1 i = true.
Proof.
  intros H. unfold instrumentMatches. rewrite !orb_true_iff.
  intros [[M | M] | M]; eauto using includes_substring.
Qed.

Lemma filter_sublist {A : Type} (f g : A -> bool) (l : list A) :
  (forall x, g x = true -> f x = true) ->
  sublist (List.filter g l) (List.filter f l).
Proof.
  intros H. induction l as [|x l IH]; simpl; [constructor |].
  destruct (g x) eqn:G.
  - rewrite (H x G). now constructor.
  - destruct (f x); [now constructor | exact IH].
Qed.

Lemma filter_sublist_all {A : Type} (g : A -> bool) (l : list A) :
  sublist (List.filter g l) l.
Proof.
  induction l as [|x l IH]; simpl; [constructor |].
  destruct (g x); now constructor.
Qed.

(** X10. Narrowing the query narrows the list: when the trimmed,
    lower-cased query contains that of another query, every instrument
    it keeps is kept by the other, in the same order. The list depends on
    the query only through its trimmed, lower-cased form. *)
Theorem filteredInstruments_narrows (detail : option ProviderDetail)
    (query1 query2 : string) :
  (Substring (JsString.toLowerCase (JsString.trim query1))
             (JsString.toLowerCase (JsString.trim query2)) ->
   sublist (filteredInstruments detail query2) (filteredInstruments detail query1))
  /\ filteredInstruments detail (JsString.toLowerCase (JsString.trim query1))
     = filteredInstruments detail query1.
Proof.
  split.
  - intros H. unfold filteredInstruments. destruct detail as [d|]; [| constructor].
    unfold truthy.
    destruct (JsString.isEmpty (JsString.toLowerCase (JsString.trim query1))) eqn:E1;
      cbn [negb].
    + destruct (JsString.isEmpty (JsString.toLowerCase (JsString.trim query2)));
        cbn [negb]; [reflexivity | apply filter_sublist_all].
    + destruct (JsString.isEmpty (JsString.toLowerCase (JsString.trim query2))) eqn:E2;
        cbn [negb].
      * apply isEmpty_true in E2. rewrite E2 in H. apply substring_of_empty in H.
        apply isEmpty_false in E1. contradiction.
      * apply filter_sublist. intros x. now apply instrumentMatches_substring.
  - unfold filteredInstruments. now rewrite normalise_idempotent.
Qed.

Lemma filteredInstruments_narrows_witness :
  sublist (filteredInstruments (Some (sampleDetail [btcusdt; ethusdt; wrapped])) "BTCU")
          (filteredInstruments (Some (sampleDetail [btcusdt; ethusdt; wrapped])) " btc ").
Proof.
  destruct (filteredInstruments_narrows
              (Some (sampleDetail [btcusdt; ethusdt; wrapped])) " btc " "BTCU")
    as [H _].
  apply H. exists "", "u". reflexivity.
Defined.

(** ** The stored page in the settled states of the view *)

(** The effect on the length leaves a page alone exactly when the
    render shows that page. *)
Lemma clamp_accepts_iff (filtered : list Instrument) (page : nat) :
  clampEffect filtered page = []
  <-> effectiveInstrumentPage (pager filtered page) = page.
Proof.
  unfold clampEffect, pager. cbn [effectiveInstrumentPage].
  destruct (length filtered =? 0) eqn:Z.
  - cbn [Nat.eqb]. destruct (page =? 0) eqn:P; cbn [negb].
    + apply Nat.eqb_eq in P. now subst.
    + apply Nat.eqb_neq in P. split; [discriminate | intros; lia].
  - apply Nat.eqb_neq in Z. pose proof (pages_positive _ Z) as P.
    apply Nat.eqb_neq in P as P'. rewrite P'. cbn [Nat.max].
    destruct (_ <? page) eqn:L.
    + apply Nat.ltb_lt in L. split; [discriminate | lia].
    + apply Nat.ltb_ge in L. split; [lia | reflexivity].
Qed.

Lemma openDetail_query_page (d : ProviderDetail) (st : ViewState) :
  openDetail d = Some st -> instrumentQuery st = "" /\ instrumentPage st = 0.
Proof.
  unfold openDetail.
  set (filtered := filteredInstruments (Some d) "").
  set (clamp := if negb (length filtered =? 0) then clampEffect filtered 0 else []).
  assert (clamp = []) as ->.
  { subst clamp. destruct (negb _); [apply clampEffect_zero | reflexivity]. }
  rewrite app_nil_l.
  set (next := applyUpdates initialView (detailEffect ++ selectionEffect filtered 0 None)).
  assert (instrumentQuery next = "" /\ instrumentPage next = 0) as [Hq Hp].
  { subst next. rewrite applyUpdates_app.
    change (applyUpdates initialView detailEffect) with initialView.
    destruct (selectionEffect_shape filtered 0 None) as [-> | [x ->]]; now split. }
  destruct (bool_decide _); [now intros [= <-] |]. intros H.
  destruct (settle_page d 8 initialView next st) as [-> ->];
    [exact Hq | left; exact Hp | exact H | now split].
Qed.

(** A step that leaves the query alone and asks for a page in range
    ends on that page. *)
Lemma dispatch_page (d : ProviderDetail) (st st' : ViewState) (ev : Event) :
  let cur := applyUpdate st (eventUpdate d st ev) in
  instrumentQuery cur = instrumentQuery st ->
  clampEffect (filteredInstruments (Some d) (instrumentQuery cur))
              (instrumentPage cur) = [] ->
  dispatch d st ev = Some st' ->
  instrumentQuery st' = instrumentQuery st
  /\ instrumentPage st' = instrumentPage cur.
Proof.
  intros cur Hq Hr. unfold dispatch. fold cur.
  destruct (bool_decide (cur = st)) eqn:B.
  - apply bool_decide_eq_true in B. intros [= <-]. now rewrite B.
  - intros H. destruct (settle_page d 8 st cur st' Hq (or_intror Hr) H) as [-> ->].
    now split.
Qed.

Lemma next_page_in_range (filtered : list Instrument) (page : nat) :
  let pages := totalInstrumentPages (pager filtered page) in
  clampEffect filtered
    (if pages =? 0 then 0 else Nat.min (page + 1) (pages - 1)) = [].
Proof.
  intros pages. apply clamp_accepts_iff. subst pages.
  unfold pager. cbn [totalInstrumentPages effectiveInstrumentPage].
  destruct (length filtered =? 0); [reflexivity |].
  destruct (Math_ceil_div _ _ =? 0); [reflexivity |]. lia.
Qed.

Lemma previous_page_in_range (filtered : list Instrument) (page : nat) :
  clampEffect filtered page = [] ->
  clampEffect filtered (Nat.max (page - 1) 0) = [].
Proof.
  rewrite !clamp_accepts_iff. unfold pager. cbn [effectiveInstrumentPage].
  destruct (length filtered =? 0); [cbn [Nat.eqb]; lia |].
  destruct (Math_ceil_div _ _ =? 0); lia.
Qed.

(** Every step keeps the stored page in range. *)
Lemma dispatch_page_in_range (d : ProviderDetail) (st st' : ViewState) (ev : Event) :
  clampEffect (filteredInstruments (Some d) (instrumentQuery st))
              (instrumentPage st) = [] ->
  dispatch d st ev = Some st' ->
  clampEffect (filteredInstruments (Some d) (instrumentQuery st'))
              (instrumentPage st') = [].
Proof.
  intros Hr H. destruct ev as [q | | | i].
  - destruct (String.eqb_spec q (instrumentQuery st)) as [E | NE].
    + unfold dispatch in H. cbn [eventUpdate] in H.
      assert (applyUpdate st (SetInstrumentQuery q) = st) as Hsame
        by (subst q; now destruct st).
      rewrite Hsame, bool_decide_eq_true_2 in H by reflexivity.
      now injection H as <-.
    + destruct (queryInput_page d st st' q NE H) as (Hq & H0 & Hmax).
      rewrite Hq.
      set (after := length (filteredInstruments (Some d) q)) in *.
      set (before := length (filteredInstruments (Some d) (instrumentQuery st))) in *.
      destruct (Nat.eq_dec after before) as [E1 | N1];
        [rewrite H0 by (now left); apply clampEffect_zero |].
      destruct (Nat.eq_dec after 0) as [E2 | N2];
        [rewrite H0 by (right; now left); apply clampEffect_zero |].
      destruct (le_lt_dec (instrumentPage st)
                  (Math_ceil_div after INSTRUMENTS_PAGE_SIZE - 1)) as [L | L];
        [rewrite H0 by (right; now right); apply clampEffect_zero |].
      rewrite (Hmax N1 N2 L). apply clamp_accepts_iff.
      unfold pager. cbn [effectiveInstrumentPage]. fold after.
      apply Nat.eqb_neq in N2 as N2'. rewrite N2'.
      pose proof (pages_positive _ N2) as P. apply Nat.eqb_neq in P as P'.
      rewrite P'. lia.
  - destruct (dispatch_page d st st' PreviousClick) as [-> ->];
      [reflexivity | now apply previous_page_in_range | exact H |].
    now apply previous_page_in_range.
  - destruct (dispatch_page d st st' NextClick) as [-> ->];
      [reflexivity | apply next_page_in_range | exact H |].
    apply next_page_in_range.
  - destruct (dispatch_page d st st' (RowClick i)) as [-> ->];
      [reflexivity | exact Hr | exact H | exact Hr].
Qed.

Lemma reachable_clamp_idle (d : ProviderDetail) (st : ViewState) :
  Reachable d st ->
  clampEffect (filteredInstruments (Some d) (instrumentQuery st))
              (instrumentPage st) = [].
Proof.
  induction 1 as [st H | st ev st' _ IH H].
  - destruct (openDetail_query_page d st H) as [_ ->]. apply clampEffect_zero.
  - now apply (dispatch_page_in_range d st st' ev).
Qed.

(** X11. In every state the view settles in, the stored page is a page
    of the filtered list: the render shows the page that is stored, and
    the effect that clamps the page has nothing to correct. *)
Theorem reachable_page_in_range (d : ProviderDetail) (st : ViewState) :
  Reachable d st ->
  let filtered := filteredInstruments (Some d) (instrumentQuery st) in
  let p := pager filtered (instrumentPage st) in
  effectiveInstrumentPage p = instrumentPage st
  /\ (filtered <> [] -> instrumentPage st < totalInstrumentPages p)
  /\ (filtered = [] -> instrumentPage st = 0)
  /\ clampEffect filtered (instrumentPage st) = [].
Proof.
  intros R filtered p. pose proof (reachable_clamp_idle d st R) as C.
  fold filtered in C. apply clamp_accepts_iff in C as E. fold p in E.
  split; [exact E |]. split; [| split; [| exact C]].
  - intros NE. rewrite <- E at 1.
    now apply effective_page_lt.
  - intros Hf. rewrite <- E. subst p. now rewrite Hf.
Qed.

Lemma reachable_page_in_range_witness :
  effectiveInstrumentPage
    (pager (filteredInstruments (Some bigDetail) "") 0) = 0.
Proof.
  destruct (reachable_page_in_range bigDetail (firstSelected bigDetail)) as [H _].
  - apply Reachable_open. vm_compute. reflexivity.
  - exact H.
Defined.

(** ** The page buttons *)

(** X12. From a settled state, Next moves to the following page and
    stays on the last one, Previous moves to the page before and stays on
    the first one; neither touches the query. On the last page Next
    changes nothing at all, and so does Previous on the first page. *)
Theorem page_buttons (d : ProviderDetail) (st : ViewState) :
  Reachable d st ->
  let pages :=
    totalInstrumentPages
      (pager (filteredInstruments (Some d) (instrumentQuery st)) (instrumentPage st)) in
  (exists st', dispatch d st NextClick = Some st'
               /\ instrumentQuery st' = instrumentQuery st
               /\ instrumentPage st' = Nat.min (instrumentPage st + 1) (pages - 1))
  /\ (exists st', dispatch d st PreviousClick = Some st'
                  /\ instrumentQuery st' = instrumentQuery st
                  /\ instrumentPage st' = instrumentPage st - 1)
  /\ (instrumentPage st + 1 >= pages -> dispatch d st NextClick = Some st)
  /\ (instrumentPage st = 0 -> dispatch d st PreviousClick = Some st).
Proof.
  intros R pages. pose proof (reachable_clamp_idle d st R) as C.
  assert (Hnext : (if pages =? 0 then 0 else Nat.min (instrumentPage st + 1) (pages - 1))
                  = Nat.min (instrumentPage st + 1) (pages - 1)).
  { destruct (pages =? 0) eqn:Z; [apply Nat.eqb_eq in Z; lia | reflexivity]. }
  split; [| split; [| split]].
  - destruct (dispatch_total d st NextClick) as [st' H]. exists st'.
    split; [exact H |].
    destruct (dispatch_page d st st' NextClick) as [-> ->];
      [reflexivity | apply next_page_in_range | exact H |].
    split; [reflexivity |]. cbn [eventUpdate applyUpdate instrumentPage].
    fold pages. exact Hnext.
  - destruct (dispatch_total d st PreviousClick) as [st' H]. exists st'.
    split; [exact H |].
    destruct (dispatch_page d st st' PreviousClick) as [-> ->];
      [reflexivity | now apply previous_page_in_range | exact H |].
    split; [reflexivity |]. cbn [eventUpdate applyUpdate instrumentPage]. lia.
  - intros Hlast. unfold dispatch. cbn [eventUpdate]. fold pages. rewrite Hnext.
    assert (Nat.min (instrumentPage st + 1) (pages - 1) = instrumentPage st) as ->.
    { apply clamp_accepts_iff in C.
      assert (filteredInstruments (Some d) (instrumentQuery st) = []
              \/ instrumentPage st < pages) as [E | L].
      { destruct (filteredInstruments (Some d) (instrumentQuery st)) eqn:F;
          [now left | right]. rewrite <- C at 1. subst pages.
        apply effective_page_lt. discriminate. }
      - subst pages. rewrite E in *. cbn in C |- *. lia.
      - lia. }
    assert (applyUpdate st (SetInstrumentPage (instrumentPage st)) = st) as ->
      by now destruct st.
    now rewrite bool_decide_eq_true_2.
  - intros Hz. unfold dispatch. cbn [eventUpdate]. rewrite Hz.
    assert (applyUpdate st (SetInstrumentPage (Nat.max (0 - 1) 0)) = st) as ->.
    { destruct st; simpl in *. now subst. }
    now rewrite bool_decide_eq_true_2.
Qed.

Lemma page_buttons_witness :
  dispatch bigDetail (firstSelected bigDetail) PreviousClick
  = Some (firstSelected bigDetail).
Proof.
  destruct (page_buttons bigDetail (firstSelected bigDetail)) as (_ & _ & _ & H).
  - apply Reachable_open. vm_compute. reflexivity.
  - apply H. reflexivity.
Defined.

(** ** Closing the dialog *)

Lemma first_page (filtered : list Instrument) :
  currentPageInstruments (pager filtered 0) = take INSTRUMENTS_PAGE_SIZE filtered.
Proof.
  unfold pager. cbn [currentPageInstruments].
  destruct (length filtered =? 0); [| destruct (Math_ceil_div _ _ =? 0)];
    unfold Array_slice; now rewrite ?Nat.min_0_l.
Qed.

Lemma selectionEffect_first (filtered : list Instrument) :
  selectionEffect filtered 0 None
  = match filtered with
    | [] => []
    | first :: _ => [SetSelectedInstrument (Some first)]
    end.
Proof.
  destruct filtered as [|first rest]; [reflexivity |].
  rewrite selectionEffect_on_page by discriminate. now rewrite first_page.
Qed.

Lemma selectionEffect_first_settled (filtered : list Instrument) :
  selectionEffect filtered 0 (head filtered) = [].
Proof.
  destruct filtered as [|first rest]; [reflexivity |].
  rewrite selectionEffect_on_page by discriminate. rewrite first_page.
  cbn [head take INSTRUMENTS_PAGE_SIZE List.find]. rewrite String.eqb_refl.
  now rewrite bool_decide_eq_true_2.
Qed.

Lemma unfiltered (d : ProviderDetail) :
  filteredInstruments (Some d) "" = detail_instruments d.
Proof. reflexivity. Qed.

(** The first page with its first instrument selected is settled. *)
Lemma firstSelected_stable (d : ProviderDetail) (prev : ViewState) :
  instrumentQuery prev = "" -> instrumentPage prev = 0 ->
  applyUpdates (firstSelected d) (effectsOf d prev (firstSelected d))
  = firstSelected d.
Proof.
  intros Hq Hp. unfold effectsOf, queryChanged, lengthChanged, pageChanged.
  cbn [firstSelected instrumentQuery instrumentPage selectedInstrument].
  rewrite Hq, Hp, unfiltered, Nat.eqb_refl. cbn [String.eqb negb orb app].
  rewrite selectionEffect_first_settled. now destruct (selectionDepsChanged _ _).
Qed.

Lemma firstSelected_initial (d : ProviderDetail) :
  detail_instruments d = [] -> firstSelected d = initialView.
Proof. intros H. unfold firstSelected. now rewrite H. Qed.

Lemma applyUpdates_first (d : ProviderDetail) :
  applyUpdates initialView (selectionEffect (detail_instruments d) 0 None)
  = firstSelected d.
Proof.
  rewrite selectionEffect_first. unfold firstSelected.
  now destruct (detail_instruments d).
Qed.

Lemma settle_firstSelected (d : ProviderDetail) (fuel : nat) :
  (if bool_decide (firstSelected d = initialView) then Some initialView
   else settle (S fuel) d initialView (firstSelected d))
  = Some (firstSelected d).
Proof.
  destruct (bool_decide _) eqn:B.
  - apply bool_decide_eq_true in B. now rewrite B.
  - apply settle_stable. now apply firstSelected_stable.
Qed.

Lemma openDetail_value (d : ProviderDetail) : openDetail d = Some (firstSelected d).
Proof.
  unfold openDetail. rewrite unfiltered.
  assert ((if negb (length (detail_instruments d) =? 0)
           then clampEffect (detail_instruments d) 0 else []) = []) as ->.
  { destruct (negb _); [apply clampEffect_zero | reflexivity]. }
  rewrite app_nil_l, applyUpdates_app.
  change (applyUpdates initialView detailEffect) with initialView.
  rewrite applyUpdates_first. apply (settle_firstSelected d 7).
Qed.

Lemma reachable_unselected_empty (d : ProviderDetail) (st : ViewState) :
  Reachable d st -> selectedInstrument st = None -> instrumentPage st = 0 ->
  filteredInstruments (Some d) (instrumentQuery st) = detail_instruments d ->
  detail_instruments d = [].
Proof.
  intros R Hs Hp Hf. destruct (reachable_selection_on_page d st R) as [[H _] _].
  specialize (H Hs). rewrite Hf in H.
  destruct (detail_instruments d) as [|x l] eqn:E; [reflexivity |].
  exfalso. now apply (page_nonempty (x :: l) (instrumentPage st)).
Qed.

(** X13. Closing the dialog of a loaded detail does not leave the view
    without a selection: the effect on the dialog clears the query, the
    page and the selection, and the selection effect then selects the
    first instrument again. From every settled state, the view after
    closing is the view after opening the detail: empty query, page 0,
    first instrument selected (none when there is no instrument). *)
Theorem closeDetail_reselects_first (d : ProviderDetail) (st : ViewState) :
  Reachable d st ->
  closeDetail d st = Some (firstSelected d)
  /\ openDetail d = Some (firstSelected d).
Proof.
  intros R. split; [| apply openDetail_value].
  unfold closeDetail.
  assert (applyUpdates st detailOpenEffect = initialView) as -> by reflexivity.
  destruct (bool_decide (initialView = st)) eqn:B.
  - apply bool_decide_eq_true in B. subst st. f_equal. symmetry.
    apply firstSelected_initial.
    now apply (reachable_unselected_empty d initialView R).
  - apply bool_decide_eq_false in B.
    change (settle 8 d st initialView)
      with (let next := applyUpdates initialView (effectsOf d st initialView) in
            if bool_decide (next = initialView) then Some initialView
            else settle 7 d initialView next).
    assert (Hnext : applyUpdates initialView (effectsOf d st initialView)
                    = if selectionDepsChanged st initialView
                      then firstSelected d else initialView).
    { unfold effectsOf. cbn [initialView instrumentQuery instrumentPage selectedInstrument].
      rewrite unfiltered, clampEffect_zero.
      assert (forall (b : bool), (if b then @nil Update else []) = []) as ->
        by (now intros []).
      rewrite app_nil_l, applyUpdates_app.
      assert (applyUpdates initialView (if queryChanged st initialView then queryEffect else [])
              = initialView) as -> by (now destruct (queryChanged _ _)).
      destruct (selectionDepsChanged st initialView); [apply applyUpdates_first | reflexivity]. }
    cbv zeta. rewrite Hnext.
    destruct (selectionDepsChanged st initialView) eqn:D.
    + apply (settle_firstSelected d 6).
    + rewrite bool_decide_eq_true_2 by reflexivity. f_equal. symmetry.
      apply firstSelected_initial.
      unfold selectionDepsChanged in D.
      apply orb_false_iff in D as [D Hsel]. apply orb_false_iff in D as [Hf Hpage].
      unfold pageChanged in Hpage. unfold selectedChanged in Hsel.
      apply negb_false_iff in Hpage, Hsel.
      apply Nat.eqb_eq in Hpage. apply bool_decide_eq_true in Hsel.
      cbn [initialView instrumentQuery instrumentPage selectedInstrument] in *.
      unfold filteredChanged in Hf. apply andb_false_iff in Hf as [Hf | Hf].
      * apply negb_false_iff, String.eqb_eq in Hf.
        exfalso. apply B. destruct st; simpl in *. now subst.
      * apply negb_false_iff, andb_true_iff in Hf as [B1 _].
        apply (reachable_unselected_empty d st R Hsel Hpage).
        now apply filtered_blank.
Qed.

Lemma closeDetail_reselects_first_witness :
  closeDetail bigDetail (viewOn 0 (head (detail_instruments bigDetail)))
  = Some (firstSelected bigDetail).
Proof.
  destruct (closeDetail_reselects_first bigDetail
              (viewOn 0 (head (detail_instruments bigDetail)))) as [H _].
  - apply Reachable_open. vm_compute. reflexivity.
  - exact H.
Defined.

(** ** The handlers that wait for the server *)

(** X14. Starting, stopping and deleting a provider: the pending marker
    is set to the provider before the request is issued and is cleared
    at the end whether the request succeeds or fails; the provider list
    is fetched again and the success notice shown only when the request
    succeeded; a failure shows the message of the error, or the fallback
    text when what was thrown is no error; the stored list changes only
    through a fetch that succeeded. A delete that is declined at the
    prompt calls no setter and issues no request. *)
Theorem lifecycle_actions_settle (name : string)
    (outcome : Lifecycle.Settled unit)
    (refresh : Lifecycle.Settled (list Lifecycle.Provider)) :
  ActionSettles (Lifecycle.handleStart name outcome refresh) name
    (Lifecycle.StartProvider name) outcome refresh
    ("Provider " ++ name ++ " started") ("Failed to start " ++ name)
  /\ ActionSettles (Lifecycle.handleStop name outcome refresh) name
       (Lifecycle.StopProvider name) outcome refresh
       ("Provider " ++ name ++ " stopped") ("Failed to stop " ++ name)
  /\ (forall hasWindow confirmed,
        hasWindow = false \/ confirmed = true ->
        ActionSettles (Lifecycle.handleDelete hasWindow confirmed name outcome refresh)
          name (Lifecycle.DeleteProvider name) outcome refresh
          ("Provider " ++ name ++ " deleted") ("Failed to delete " ++ name))
  /\ Lifecycle.handleDelete true false name outcome refresh
     = [Lifecycle.Confirm ("Delete provider " ++ name ++ "?")].
Proof.
  split; [| split; [| split]]; [| | | reflexivity].
  - unfold ActionSettles. split_conj.
    + intros pending. now destruct outcome as [[]|?], refresh.
    + eexists [_; _; _], _. split; [reflexivity |]. now split.
    + now destruct outcome as [[]|?], refresh.
    + intros n. now destruct outcome as [[]|?], refresh.
    + intros e. now destruct outcome as [[]|?], refresh.
    + intros providers. now destruct outcome as [[]|?], refresh.
  - unfold ActionSettles. split_conj.
    + intros pending. now destruct outcome as [[]|?], refresh.
    + eexists [_; _; _], _. split; [reflexivity |]. now split.
    + now destruct outcome as [[]|?], refresh.
    + intros n. now destruct outcome as [[]|?], refresh.
    + intros e. now destruct outcome as [[]|?], refresh.
    + intros providers. now destruct outcome as [[]|?], refresh.
  - intros hasWindow confirmed H.
    assert (hasWindow && negb confirmed = false) as Hgo
      by (destruct H as [-> | ->]; [reflexivity | apply andb_false_r]).
    unfold ActionSettles, Lifecycle.handleDelete. rewrite Hgo. split_conj.
    + intros pending. now destruct hasWindow, outcome as [[]|?], refresh.
    + destruct hasWindow.
      * eexists [_; _; _; _], _. split; [reflexivity |]. now split.
      * eexists [_; _; _], _. split; [reflexivity |]. now split.
    + now destruct hasWindow, outcome as [[]|?], refresh.
    + intros n. now destruct hasWindow, outcome as [[]|?], refresh.
    + intros e. now destruct hasWindow, outcome as [[]|?], refresh.
    + intros providers. now destruct hasWindow, outcome as [[]|?], refresh.
Qed.

Lemma lifecycle_actions_settle_witness :
  Lifecycle.finalValue Lifecycle.onPendingAction
    (Lifecycle.handleDelete true true "main"
       (Lifecycle.Rejected Lifecycle.OtherValue) (Lifecycle.Fulfilled []))
    (Some "other") = None.
Proof.
  destruct (lifecycle_actions_settle "main"
              (Lifecycle.Rejected Lifecycle.OtherValue) (Lifecycle.Fulfilled []))
    as (_ & _ & H & _).
  destruct (H true true) as [P _]; [now right | apply P].
Defined.

(** X15. From its request on, a submission clears the submitting flag
    at the end in every case. When saving fails, the error is shown and
    the dialog, its mode and the values typed so far are left as they
    are, and the provider list is not fetched. When saving succeeds, the
    list is fetched, the notice names the provider, and the dialog is
    closed with the form back at its defaults in create mode. *)
Theorem submitContinuation_outcome (formMode : FormMode) (trimmedName : string)
    (payload : ProviderRequest) (saved : Lifecycle.Settled unit)
    (refresh : Lifecycle.Settled (list Lifecycle.Provider)) :
  let trace := Lifecycle.submitContinuation formMode trimmedName payload saved refresh in
  let request :=
    match formMode with
    | Create => Lifecycle.CreateProvider payload
    | Edit => Lifecycle.UpdateProvider trimmedName payload
    end in
  (forall b, Lifecycle.finalValue Lifecycle.onSubmitting trace b = false)
  /\ (forall err, saved = Lifecycle.Rejected err ->
        Lifecycle.requestsOf trace = [request]
        /\ (forall e, Lifecycle.finalValue Lifecycle.onFormError trace e
                      = Some (Lifecycle.messageOr err "Failed to save provider"))
        /\ (forall f, Lifecycle.finalValue Lifecycle.onFormState trace f = f)
        /\ (forall b, Lifecycle.finalValue Lifecycle.onFormOpen trace b = b)
        /\ (forall m, Lifecycle.finalValue Lifecycle.onFormMode trace m = m)
        /\ (forall n, Lifecycle.finalValue Lifecycle.onActionNotice trace n = n)
        /\ (forall ps, Lifecycle.finalValue Lifecycle.onProviders trace ps = ps))
  /\ (Lifecycle.fulfilled saved = true ->
      Lifecycle.requestsOf trace = [request; Lifecycle.GetProviders]
      /\ (forall b, Lifecycle.finalValue Lifecycle.onFormOpen trace b = false)
      /\ (forall f, Lifecycle.finalValue Lifecycle.onFormState trace f = defaultFormState)
      /\ (forall m, Lifecycle.finalValue Lifecycle.onFormMode trace m = Create)
      /\ (forall e, Lifecycle.finalValue Lifecycle.onFormError trace e = None)
      /\ (forall n, Lifecycle.finalValue Lifecycle.onActionNotice trace n
                    = Some ("Provider " ++ trimmedName ++
                            match formMode with
                            | Create => " created successfully"
                            | Edit => " updated successfully"
                            end))).
Proof.
  intros trace request. subst trace request. split; [| split].
  - intros b. now destruct saved as [[]|?], refresh.
  - intros err ->. now split_conj.
  - destruct saved as [[]|?]; [intros _ | discriminate].
    split_conj; try intros ?; now destruct refresh, formMode.
Qed.

Lemma submitContinuation_outcome_witness :
  Lifecycle.finalValue Lifecycle.onFormState
    (Lifecycle.submitContinuation Edit "main"
       {| request_name := "main"; request_adapter_identifier := "binance";
          request_adapter_config := ∅; request_enabled := true |}
       (Lifecycle.Rejected (Lifecycle.ErrorObject "conflict"))
       (Lifecycle.Fulfilled []))
    filledForm = filledForm.
Proof.
  destruct (submitContinuation_outcome Edit "main"
              {| request_name := "main"; request_adapter_identifier := "binance";
                 request_adapter_config := ∅; request_enabled := true |}
              (Lifecycle.Rejected (Lifecycle.ErrorObject "conflict"))
              (Lifecycle.Fulfilled [])) as (_ & H & _).
  destruct (H (Lifecycle.ErrorObject "conflict")) as (_ & _ & F & _);
    [reflexivity | apply F].
Defined.

Section Loading.

Context {builtins : Builtins}.

(** X16. Opening a provider for editing or for its details makes one
    request, for the provider of that name, and ends with the loading
    flag lowered in every case; editing leaves the form open in edit
    mode. When the request fails the error shows its message, or the
    fallback text, and the form keeps the values it had, while the
    detail, cleared before the request, stays cleared. When it succeeds
    the form holds the provider's name and adapter and exactly the fields
    of that adapter's schema, and the detail is the provider
    returned. *)
Theorem loading_handlers (name : string) (loaded : Lifecycle.Settled ProviderDetail) :
  let edit := Lifecycle.handleEdit name loaded in
  let detail := Lifecycle.handleDetail name loaded in
  (forall b, Lifecycle.finalValue Lifecycle.onFormLoading edit b = false)
  /\ (forall b, Lifecycle.finalValue Lifecycle.onDetailLoading detail b = false)
  /\ Lifecycle.requestsOf edit = [Lifecycle.GetProvider name]
  /\ Lifecycle.requestsOf detail = [Lifecycle.GetProvider name]
  /\ (forall m, Lifecycle.finalValue Lifecycle.onFormMode edit m = Edit)
  /\ (forall b, Lifecycle.finalValue Lifecycle.onFormOpen edit b = true)
  /\ (forall err, loaded = Lifecycle.Rejected err ->
        (forall f, Lifecycle.finalValue Lifecycle.onFormState edit f = f)
        /\ (forall e, Lifecycle.finalValue Lifecycle.onFormError edit e
                      = Some (Lifecycle.messageOr err "Failed to load provider"))
        /\ (forall d, Lifecycle.finalValue Lifecycle.onDetail detail d = None)
        /\ (forall e, Lifecycle.finalValue Lifecycle.onDetailError detail e
                      = Some (Lifecycle.messageOr err "Failed to load provider details")))
  /\ (forall response, loaded = Lifecycle.Fulfilled response ->
        (forall d, Lifecycle.finalValue Lifecycle.onDetail detail d = Some response)
        /\ (forall e, Lifecycle.finalValue Lifecycle.onDetailError detail e = None)
        /\ (forall e, Lifecycle.finalValue Lifecycle.onFormError edit e = None)
        /\ (forall f,
              let form := Lifecycle.finalValue Lifecycle.onFormState edit f in
              form_name form = detail_name response
              /\ form_adapter form = adapter_identifier (detail_adapter response)
              /\ form_enabled form = detail_running response
              /\ forall k, is_Some (form_configValues form !! k)
                           <-> In k (map setting_name
                                       (adapter_settingsSchema (detail_adapter response))))).
Proof.
  intros edit detail. subst edit detail. split_conj.
  - intros b. now destruct loaded.
  - intros b. now destruct loaded.
  - now destruct loaded.
  - now destruct loaded.
  - intros m. now destruct loaded.
  - intros b. now destruct loaded.
  - intros err ->. now split_conj.
  - intros response ->. split_conj; try (intros ?; reflexivity).
    intros f form. subst form. split_conj; try reflexivity.
    intros k. apply build_keys.
Qed.

End Loading.

Lemma loading_handlers_witness :
  Lifecycle.finalValue Lifecycle.onFormState
    (Lifecycle.handleEdit (builtins := constBuiltins) "main"
       (Lifecycle.Rejected Lifecycle.OtherValue))
    filledForm = filledForm.
Proof.
  destruct (loading_handlers (builtins := constBuiltins) "main"
              (Lifecycle.Rejected Lifecycle.OtherValue))
    as (_ & _ & _ & _ & _ & _ & H & _).
  destruct (H Lifecycle.OtherValue) as [F _]; [reflexivity | apply F].
Defined.

(** ** What a submission sends *)

Lemma collect_keys_in_schema (metadata : AdapterMetadata)
    (configValues : gmap string string) (k : string) :
  is_Some (collect_config (collectConfigPayload metadata configValues) !! k) ->
  In k (map setting_name (adapter_settingsSchema metadata)).
Proof.
  intros [v Hv].
  destruct (collect_error (collectConfigPayload metadata configValues)) as [e|] eqn:E.
  - destruct (collectLoop_error_source _ _ _ _ E) as [Hc _].
    unfold collectConfigPayload in Hv. rewrite Hc, lookup_empty in Hv. discriminate.
  - apply collect_no_error_passes in E. unfold collectConfigPayload in Hv.
    apply (collectLoop_lookup _ _ _ _ _ E) in Hv
      as [(pre & s & post & -> & <- & _) | [Hv _]].
    + apply in_map, in_elt.
    + rewrite lookup_empty in Hv. discriminate.
Qed.

(** X17. Whatever the form holds, a request that a submission issues is
    well formed: its name is the trimmed provider name, not empty and
    without white space around it; its adapter is an adapter of the list
    whose identifier is the one chosen in the form; its configuration was
    collected without error and has only fields of that adapter's schema
    as keys; an update is addressed to the name in its body; and creating
    issues a create, editing an update. *)
Theorem handleFormSubmit_requests_well_formed (formMode : FormMode)
    (adapters : list AdapterMetadata) (formState : FormState) (a : Action) :
  In a (requests (handleFormSubmit formMode adapters formState)) ->
  exists adapter payload,
    a = match formMode with
        | Create => CreateProvider payload
        | Edit => UpdateProvider (request_name payload) payload
        end
    /\ request_name payload = JsString.trim (form_name formState)
    /\ request_name payload <> ""
    /\ JsString.trim (request_name payload) = request_name payload
    /\ In adapter adapters
    /\ adapter_identifier adapter = form_adapter formState
    /\ request_adapter_identifier payload = form_adapter formState
    /\ request_enabled payload = form_enabled formState
    /\ collectConfigPayload adapter (form_configValues formState)
       = {| collect_config := request_adapter_config payload; collect_error := None |}
    /\ (forall k, is_Some (request_adapter_config payload !! k) ->
          In k (map setting_name (adapter_settingsSchema adapter))).
Proof.
  unfold handleFormSubmit, requests. cbn [List.filter isRequest].
  destruct (truthy (JsString.trim (form_name formState))) eqn:T; cbn [negb];
    [| intros []].
  destruct (selectedAdapter adapters formState) as [adapter|] eqn:S; [| intros []].
  rewrite errorSet_collect.
  destruct (collect_error (collectConfigPayload adapter (form_configValues formState)))
    eqn:E; [intros [] |].
  apply find_some in S as [Hin Hid]. apply String.eqb_eq in Hid.
  intros Ha. exists adapter. eexists. split.
  - destruct formMode; cbn in Ha; destruct Ha as [<- | []]; reflexivity.
  - cbn [request_name request_adapter_identifier request_enabled request_adapter_config].
    split_conj; try reflexivity; try assumption.
    + intros Hempty. unfold truthy in T. now rewrite Hempty in T.
    + apply trim_idempotent.
    + destruct (collectConfigPayload adapter (form_configValues formState)).
      simpl in *. now subst.
    + intros k. apply collect_keys_in_schema.
Qed.

Lemma handleFormSubmit_requests_well_formed_witness :
  exists adapter payload,
    request_name payload = "kraken-1"
    /\ adapter_identifier adapter = "binance"
    /\ request_adapter_config payload !! "port" = Some (VNumber (intNumber 443)).
Proof.
  pose (form := {| form_name := " kraken-1 "; form_adapter := "binance";
                   form_configValues := <["port" := "443"]> ∅;
                   form_enabled := false |}).
  destruct (handleFormSubmit_requests_well_formed Create [sampleAdapter] form
              (CreateProvider
                 {| request_name := "kraken-1";
                    request_adapter_identifier := "binance";
                    request_adapter_config := <["port" := VNumber (intNumber 443)]> ∅;
                    request_enabled := false |}))
    as (adapter & payload & Ha & Hn & _ & _ & _ & Hid & _).
  - vm_compute. now left.
  - exists adapter, payload. injection Ha as <-. split_conj; [reflexivity | exact Hid | reflexivity].
Defined.

(** ** What the list of instruments shows *)

Lemma filter_length_eq {A : Type} (f : A -> bool) (l : list A) :
  length (List.filter f l) = length l -> List.filter f l = l.
Proof.
  induction l as [|x l IH]; cbn [List.filter]; [reflexivity |].
  destruct (f x); cbn [length]; intros H.
  - f_equal. apply IH. lia.
  - pose proof (List.filter_length_le f l). lia.
Qed.

(** X18. The count above the list is followed by the total exactly when
    the search hides an instrument: the filtered list is never longer
    than the instruments of the provider, and the two lengths agree only
    when the filtered list is the whole list. *)
Theorem showsTotal_iff_hidden (d : ProviderDetail) (query : string) :
  length (filteredInstruments (Some d) query) <= length (detail_instruments d)
  /\ (showsTotal d query = false
      <-> filteredInstruments (Some d) query = detail_instruments d).
Proof.
  unfold showsTotal, filteredInstruments.
  destruct (negb (truthy (JsString.toLowerCase (JsString.trim query)))).
  - split; [lia |]. rewrite Nat.eqb_refl. now split.
  - split; [apply List.filter_length_le |].
    rewrite negb_false_iff, Nat.eqb_eq. split.
    + intros H. now apply filter_length_eq.
    + intros H. now rewrite H.
Qed.

Lemma nodup_symbols_sublist (l1 l2 : list Instrument) :
  sublist l1 l2 -> List.NoDup (map symbol l2) -> List.NoDup (map symbol l1).
Proof.
  intros S. rewrite <- !NoDup_ListNoDup.
  change (map symbol l2) with (symbol <$> l2).
  change (map symbol l1) with (symbol <$> l1).
  intros H. eapply sublist_NoDup; [exact H |]. now apply fmap_sublist.
Qed.

Lemma filteredInstruments_sublist (d : ProviderDetail) (query : string) :
  sublist (filteredInstruments (Some d) query) (detail_instruments d).
Proof.
  unfold filteredInstruments.
  destruct (negb _); [reflexivity | apply filter_sublist_all].
Qed.

Lemma slice_sublist (l : list Instrument) (start end_ : nat) :
  sublist (Array_slice l start end_) l.
Proof.
  unfold Array_slice. etransitivity; [apply sublist_take | apply sublist_drop].
Qed.

Lemma one_row_with_symbol (x : Instrument) (l : list Instrument) :
  List.NoDup (map symbol l) -> In x l ->
  List.filter (fun i => String.eqb (symbol x) (symbol i)) l = [x].
Proof.
  induction l as [|y l IH]; [intros _ [] |].
  cbn [map List.filter]. rewrite List.NoDup_cons_iff. intros [Hy Hl] [-> | Hin].
  - rewrite String.eqb_refl. f_equal.
    clear IH Hl. induction l as [|z l IH]; [reflexivity |].
    cbn [List.filter]. cbn [map] in Hy.
    destruct (String.eqb (symbol x) (symbol z)) eqn:E.
    + apply String.eqb_eq in E. exfalso. apply Hy. now left.
    + apply IH. intros H. apply Hy. now right.
  - destruct (String.eqb (symbol x) (symbol y)) eqn:E; [| now apply IH].
    apply String.eqb_eq in E. exfalso. apply Hy. rewrite <- E. now apply in_map.
Qed.

(** X19. When the symbols of the instruments of a provider are pairwise
    different, every state the view settles in with a page that is not
    empty highlights exactly one row of that page, the row of the
    selected instrument; with an empty page there is no selection and no
    row to highlight. *)
Theorem one_row_highlighted (d : ProviderDetail) (st : ViewState) :
  List.NoDup (map symbol (detail_instruments d)) ->
  Reachable d st ->
  let slice :=
    currentPageInstruments
      (pager (filteredInstruments (Some d) (instrumentQuery st)) (instrumentPage st)) in
  match selectedInstrument st with
  | Some x => List.filter (isSelected (selectedInstrument st)) slice = [x]
  | None => slice = []
  end.
Proof.
  intros N R slice.
  destruct (reachable_selection_on_page d st R) as [Hnone Hin].
  fold slice in Hnone, Hin.
  destruct (selectedInstrument st) as [x|]; [| now apply Hnone].
  cbn [isSelected]. apply one_row_with_symbol; [| now apply Hin].
  eapply nodup_symbols_sublist; [| exact N].
  etransitivity; [apply slice_sublist | apply filteredInstruments_sublist].
Qed.

Lemma one_row_highlighted_witness :
  List.filter (isSelected (Some btcusdt)) [btcusdt; wrapped; ethusdt] = [btcusdt].
Proof.
  assert (openDetail (sampleDetail [btcusdt; wrapped; ethusdt]) = Some (viewOn 0 (Some btcusdt))) as O
    by (vm_compute; reflexivity).
  exact (one_row_highlighted (sampleDetail [btcusdt; wrapped; ethusdt]) (viewOn 0 (Some btcusdt))
           ltac:(vm_compute; repeat constructor; cbn; intuition congruence)
           (Reachable_open _ _ O)).
Defined.
